(** * Frame API (backend/main.py): authentication and movie endpoints

    A shallow embedding of the FastAPI backend: the credential helpers
    ([hash_password], [verify_password]), the token helpers
    ([create_access_token], [get_current_user]) and the request handlers
    ([register], [login], [get_movies], [get_movie], [create_movie]).

    Conventions.
    - A Python [str] is a Rocq [string] holding its UTF-8 bytes; Python
      [bytes] are [list byte]; [.encode('utf-8')] and [.decode('utf-8')]
      are the two conversions between them.
    - Instants ([datetime]) are whole seconds since the epoch, in [Z]
      (the granularity of the [exp] claim of a token).
    - A handler is a function from the database to an outcome and the
      database it leaves behind; a raised exception is an outcome.
    - Requests are handled one at a time: the interleaving of the awaits
      of concurrent requests is not part of this model.
    - The packages the file imports are modelled as their current
      releases behave: bcrypt 5, PyJWT from 2.10 on, FastAPI's
      [HTTPBearer] and response validation, PostgreSQL through asyncpg.
      Their cryptographic cores (the key derivation of bcrypt,
      HMAC-SHA256) are parameters. *)

From Stdlib Require Import ZArith Lia Bool.
From Stdlib Require Import Strings.Ascii Strings.Byte.
From Corelib Require Import PrimFloat.
From stdpp Require Import base decidable option numbers list sorting.
From stdpp Require Import strings gmap.

Local Open Scope Z_scope.

(** * Part I: the model *)

(** ** Exceptions and outcomes *)

Inductive exn : Type :=
  | HTTPException (status_code : Z) (detail : string)
  | PyJWTError (what : string)
  | ValueError (msg : string)
  | PostgresError (msg : string)
  | ResponseValidationError.

Inductive outcome (A : Type) : Type :=
  | Return (a : A)
  | Raise (e : exn).
Arguments Return {A} a.
Arguments Raise {A} e.

#[global] Instance outcome_ret : MRet outcome := λ A a, Return a.

#[global] Instance outcome_bind : MBind outcome :=
  λ A B k m, match m with Return a => k a | Raise e => Raise e end.

Definition HTTP_400_BAD_REQUEST : Z := 400.
Definition HTTP_401_UNAUTHORIZED : Z := 401.
Definition HTTP_404_NOT_FOUND : Z := 404.

(** ** Strings and bytes *)

Definition bytes : Type := list byte.

#[global] Instance byte_eq_dec : EqDecision byte := Byte.byte_eq_dec.

Definition encode_utf8 (s : string) : bytes := String.list_byte_of_string s.
Definition decode_utf8 (b : bytes) : string := String.string_of_list_byte b.

Definition ascii_lower (c : ascii) : ascii :=
  let n := nat_of_ascii c in
  if ((65 <=? n) && (n <=? 90))%nat then ascii_of_nat (n + 32) else c.

(** [str.lower()], on the ASCII letters. *)
Fixpoint lower (s : string) : string :=
  match s with
  | EmptyString => EmptyString
  | String c s' => String (ascii_lower c) (lower s')
  end.

(** ** Values

    What a claim of a token and a query parameter can hold here: a JSON
    number that is an integer, or a JSON string. *)

Inductive json : Type :=
  | JInt (z : Z)
  | JStr (s : string).

#[global] Instance json_eq_dec : EqDecision json.
Proof. solve_decision. Defined.

#[global] Instance json_countable : Countable json :=
  inj_countable'
    (λ v, match v with JInt z => inl z | JStr s => inr s end)
    (λ x, match x with inl z => JInt z | inr s => JStr s end)
    (λ v, match v with JInt _ | JStr _ => eq_refl end).

(** Python's truth value of a claim. *)
Definition truthy (v : json) : bool :=
  match v with
  | JInt z => negb (z =? 0)
  | JStr s => negb (bool_decide (s = ""))
  end.

Definition is_space (c : ascii) : bool :=
  let n := nat_of_ascii c in
  (((9 <=? n) && (n <=? 13)) || ((28 <=? n) && (n <=? 32)))%nat.

Fixpoint lstrip (l : list ascii) : list ascii :=
  match l with
  | c :: l' => if is_space c then lstrip l' else l
  | [] => []
  end.

Definition strip (l : list ascii) : list ascii :=
  reverse (lstrip (reverse (lstrip l))).

(** Decimal digits, with single underscores between them if any; at most
    4300 digits are converted.  [after_digit] tells that the character
    before was a digit. *)
Fixpoint numeral (acc : Z) (digits : nat) (after_digit : bool)
    (l : list ascii) : option Z :=
  match l with
  | [] => if after_digit && (digits <=? 4300)%nat then Some acc else None
  | c :: l' =>
      let n := Z.of_nat (nat_of_ascii c) in
      if (48 <=? n) && (n <=? 57)
      then numeral (10 * acc + (n - 48)) (S digits) true l'
      else if bool_decide (c = "_"%char) && after_digit
      then numeral acc digits false l'
      else None
  end.

(** [int(s)] for a [str]: blanks around, a sign, decimal digits.  [None]
    is Python's [ValueError].  Blanks and digits are the ASCII ones. *)
Definition int_of_str (s : string) : option Z :=
  match strip (String.list_ascii_of_string s) with
  | c :: l =>
      if bool_decide (c = "+"%char) then numeral 0 0 false l
      else if bool_decide (c = "-"%char) then Z.opp <$> numeral 0 0 false l
      else numeral 0 0 false (c :: l)
  | [] => None
  end.

(** [int(v)] *)
Definition int (v : json) : option Z :=
  match v with
  | JInt z => Some z
  | JStr s => int_of_str s
  end.

(** ** The bcrypt package

    A bcrypt hash is the text [$], version, [$], cost, [$], followed by 22
    salt characters and 31 digest characters.  [hashpw] refuses a password
    of more than 72 bytes.  It splits its second argument, which may be a
    salt made by [gensalt] or a whole hash, at the [$] signs, drops what
    stands before the first, and reads the version, the cost and the salt
    from the three parts that must remain; it raises [ValueError] when it
    cannot.  The hash it returns is written afresh from what it read, the
    cost with two digits.  [checkpw] hashes the password with the stored
    hash as salt and compares the result with the stored hash. *)

Module bcrypt.

Local Open Scope byte_scope.

Definition is_digit (c : byte) : bool :=
  (48 <=? Z.of_N (Byte.to_N c)) && (Z.of_N (Byte.to_N c) <=? 57).

Definition digit_value (c : byte) : Z := Z.of_N (Byte.to_N c) - 48.

(** The bcrypt alphabet: [./A-Za-z0-9]. *)
Definition is_salt_char (c : byte) : bool :=
  let n := Z.of_N (Byte.to_N c) in
  ((46 <=? n) && (n <=? 57)) || ((65 <=? n) && (n <=? 90))
  || ((97 <=? n) && (n <=? 122)).

(** The six bits a character of the alphabet stands for. *)
Definition salt_char_value (c : byte) : Z :=
  let n := Z.of_N (Byte.to_N c) in
  if n <=? 47 then n - 46
  else if n <=? 57 then n - 48 + 54
  else if n <=? 90 then n - 65 + 2
  else n - 97 + 28.

(** The parts of [s] between the occurrences of [sep]. *)
Fixpoint split_on (sep : byte) (s : bytes) : list bytes :=
  match s with
  | [] => [[]]
  | c :: s' =>
      if bool_decide (c = sep) then [] :: split_on sep s'
      else match split_on sep s' with
           | part :: parts => (c :: part) :: parts
           | [] => [[c]]
           end
  end.

Definition is_version (v : bytes) : bool :=
  bool_decide (v = ["2"; "a"]) || bool_decide (v = ["2"; "b"])
  || bool_decide (v = ["2"; "x"]) || bool_decide (v = ["2"; "y"]).

Definition decimal (ds : bytes) : Z :=
  foldl (λ acc d, 10 * acc + digit_value d) 0 ds.

(** The cost as the library parses it: an unsigned 32-bit numeral, which
    may start with a plus sign. *)
Definition parse_cost (s : bytes) : option Z :=
  let ds := match s with
            | c :: ds' => if bool_decide (c = "+") then ds' else s
            | [] => s
            end in
  if negb (bool_decide (ds = [])) && forallb is_digit ds
     && (decimal ds <? 2 ^ 32)
  then Some (decimal ds) else None.

(** 22 characters of the alphabet that stand for 16 bytes: the four bits
    the last character has to spare are zero. *)
Definition is_raw_salt (raw : bytes) : bool :=
  bool_decide (length raw = 22%nat) && forallb is_salt_char raw
  && match last raw with
     | Some c => (salt_char_value c mod 16 =? 0)%Z
     | None => false
     end.

Record settings : Type := {
  version : bytes;
  cost : Z;
  raw_salt : bytes
}.

(** What [hashpw] reads from its second argument: [None] is bcrypt's
    "Invalid salt".  The log-rounds are between 4 and 31. *)
Definition read_settings (s : bytes) : option settings :=
  match split_on "$" s with
  | [_; v; c; rest] =>
      match parse_cost c with
      | Some n =>
          if is_version v && is_raw_salt (take 22 rest)
             && (4 <=? n) && (n <=? 31)
          then Some {| version := v; cost := n; raw_salt := take 22 rest |}
          else None
      | None => None
      end
  | _ => None
  end.

Definition digit_char (d : Z) : byte :=
  default "0" (Byte.of_N (Z.to_N (48 + d))).

Definition two_digits (n : Z) : bytes :=
  [digit_char (n / 10); digit_char (n mod 10)].

(** The cost and the salt, as they stand in a hash. *)
Definition cost_and_salt (st : settings) : bytes :=
  two_digits (cost st) ++ "$" :: raw_salt st.

Definition format_settings (st : settings) : bytes :=
  "$" :: version st ++ "$" :: cost_and_salt st.

Definition gensalt_prefix : bytes := ["$"; "2"; "b"; "$"; "1"; "2"; "$"].

(** What [gensalt()] can return: [$2b$12$] and the 22 characters of 16
    random bytes. *)
Definition is_gensalt (salt : bytes) : Prop :=
  take 7 salt = gensalt_prefix ∧ is_raw_salt (drop 7 salt) = true.

Section Primitive.

(** The expensive key-derivation core: from the cost and the salt, and
    the password, to the digest text. *)
Variable kdf : bytes → bytes → bytes.

Definition hashpw (password salt : bytes) : outcome bytes :=
  if (72 <? length password)%nat
  then Raise (ValueError "password cannot be longer than 72 bytes, truncate manually if necessary (e.g. my_password[:72])")
  else match read_settings salt with
       | Some st =>
           Return (format_settings st ++ kdf (cost_and_salt st) password)
       | None => Raise (ValueError "Invalid salt")
       end.

Definition checkpw (password hashed_password : bytes) : outcome bool :=
  match hashpw password hashed_password with
  | Return h => Return (bool_decide (h = hashed_password))
  | Raise e => Raise e
  end.

End Primitive.

End bcrypt.

(** ** The PyJWT package

    A token string is represented by what the decoder makes of its three
    segments: the declared algorithm, the claims and the signature, or
    [Unparsed] when the segments do not decode.  The claims are a JSON
    object whose values are integers or strings.  [decode] checks the
    algorithm and the signature, then the registered claims the way the
    call of the application has them checked (every default option, no
    audience, issuer or subject asked for): [iat] and [nbf] are not in the
    future, [exp] is not reached, there is no audience to speak of, and
    [sub] and [jti], when present, are strings.  [encode] is used by the
    application on a payload of [sub] and [exp] only. *)

Module jwt.

Record jws : Type := JWS {
  alg : string;
  claims : gmap string json;
  signature : bytes
}.

Inductive token : Type :=
  | Unparsed (raw : string)
  | Compact (t : jws).

#[global] Instance jws_eq_dec : EqDecision jws.
Proof. solve_decision. Defined.

#[global] Instance token_eq_dec : EqDecision token.
Proof. solve_decision. Defined.

Definition validate (ok : bool) (error : string) : outcome unit :=
  if ok then Return tt else Raise (PyJWTError error).

(** A time claim, when present, is read with [int()] and compared with
    the clock. *)
Definition validate_time (payload : gmap string json) (claim not_int : string)
    (refused : Z → bool) (error : string) : outcome unit :=
  match payload !! claim with
  | None => Return tt
  | Some v =>
      match int v with
      | None => Raise (PyJWTError not_int)
      | Some z => validate (negb (refused z)) error
      end
  end.

Definition is_str_if_present (v : option json) : bool :=
  match v with
  | Some (JInt _) => false
  | Some (JStr _) | None => true
  end.

(** [now] is the clock as [decode] reads it. *)
Definition validate_claims (payload : gmap string json) (now : Z)
    : outcome unit :=
  _ ← validate_time payload "iat" "InvalidIssuedAtError"
        (λ iat, now <? iat) "ImmatureSignatureError";
  _ ← validate_time payload "nbf" "DecodeError"
        (λ nbf, now <? nbf) "ImmatureSignatureError";
  _ ← validate_time payload "exp" "DecodeError"
        (λ exp, exp <=? now) "ExpiredSignatureError";
  _ ← validate (negb (from_option truthy false (payload !! "aud")))
        "InvalidAudienceError";
  _ ← validate (is_str_if_present (payload !! "sub")) "InvalidSubjectError";
  validate (is_str_if_present (payload !! "jti")) "InvalidJTIError".

Section Primitive.

(** The signing primitive: algorithm name, key, signing input (the header
    and the claims) to signature.  For [HS256] it is HMAC-SHA256. *)
Variable sign : string → string → string * gmap string json → bytes.

Definition encode (payload : gmap string json) (key algorithm : string)
    : token :=
  Compact {| alg := algorithm; claims := payload;
             signature := sign algorithm key (algorithm, payload) |}.

Definition decode (tok : token) (key : string) (algorithms : list string)
    (now : Z) : outcome (gmap string json) :=
  match tok with
  | Unparsed _ => Raise (PyJWTError "DecodeError")
  | Compact t =>
      if negb (bool_decide (alg t ∈ algorithms))
      then Raise (PyJWTError "InvalidAlgorithmError")
      else if negb (bool_decide
                      (signature t = sign (alg t) key (alg t, claims t)))
      then Raise (PyJWTError "InvalidSignatureError")
      else
        _ ← validate_claims (claims t) now;
        mret (claims t)
  end.

End Primitive.

End jwt.

(** ** Configuration *)

Definition ALGORITHM : string := "HS256".
Definition ACCESS_TOKEN_EXPIRE_MINUTES : Z := 30.

(** ** Request and response models *)

Record MovieCreate : Type := {
  title : string;
  genre : string;
  duration : Z;
  rating : float;
  description : string;
  poster_url : string;
  is_new : bool
}.

Record UserCreate : Type := {
  email : string;
  username : string;
  password : string
}.

Record LoginRequest : Type := {
  login_email : string;
  login_password : string
}.

Record Token : Type := {
  access_token : jwt.token;
  token_type : string
}.

Record HTTPAuthorizationCredentials : Type := {
  scheme : string;
  credentials : jwt.token
}.

(** ** The database *)

Record user_row : Type := {
  user_id : Z;
  user_email : string;
  user_username : string;
  user_password_hash : string;
  user_created_at : Z;
  user_is_active : bool
}.

Record movie_row : Type := {
  movie_id : Z;
  movie_title : string;
  movie_genre : string;
  movie_duration : Z;
  movie_rating : float;
  movie_description : string;
  movie_poster_url : string;
  movie_is_new : bool;
  movie_created_at : Z;
  movie_views_count : Z;
  movie_user_id : Z
}.

(** The two tables, each with the sequence its next id comes from. *)
Record database : Type := {
  users : list user_row;
  movies : list movie_row;
  users_id_seq : Z;
  movies_id_seq : Z
}.

(** The response model [Movie]: the fields of [MovieBase] with [id],
    [created_at] and [views_count]; it has no [user_id]. *)
Record Movie : Type := {
  Movie_title : string;
  Movie_genre : string;
  Movie_duration : Z;
  Movie_rating : float;
  Movie_description : string;
  Movie_poster_url : string;
  Movie_is_new : bool;
  Movie_id : Z;
  Movie_created_at : Z;
  Movie_views_count : Z
}.

(** What [response_model=Movie] keeps of a row. *)
Definition Movie_of_row (m : movie_row) : Movie :=
  {| Movie_title := movie_title m; Movie_genre := movie_genre m;
     Movie_duration := movie_duration m; Movie_rating := movie_rating m;
     Movie_description := movie_description m;
     Movie_poster_url := movie_poster_url m; Movie_is_new := movie_is_new m;
     Movie_id := movie_id m; Movie_created_at := movie_created_at m;
     Movie_views_count := movie_views_count m |}.

Definition set_users (us : list user_row) (seq : Z) (db : database) : database :=
  {| users := us; movies := movies db;
     users_id_seq := seq; movies_id_seq := movies_id_seq db |}.

Definition set_movies (ms : list movie_row) (seq : Z) (db : database) : database :=
  {| users := users db; movies := ms;
     users_id_seq := users_id_seq db; movies_id_seq := seq |}.

Definition add_view (m : movie_row) : movie_row :=
  {| movie_id := movie_id m; movie_title := movie_title m;
     movie_genre := movie_genre m; movie_duration := movie_duration m;
     movie_rating := movie_rating m; movie_description := movie_description m;
     movie_poster_url := movie_poster_url m; movie_is_new := movie_is_new m;
     movie_created_at := movie_created_at m;
     movie_views_count := movie_views_count m + 1;
     movie_user_id := movie_user_id m |}.

(** [after] is [before] with one more view and nothing else changed. *)
Definition one_more_view (before after : movie_row) : Prop :=
  movie_views_count after = movie_views_count before + 1
  ∧ movie_id after = movie_id before
  ∧ movie_title after = movie_title before
  ∧ movie_genre after = movie_genre before
  ∧ movie_duration after = movie_duration before
  ∧ movie_rating after = movie_rating before
  ∧ movie_description after = movie_description before
  ∧ movie_poster_url after = movie_poster_url before
  ∧ movie_is_new after = movie_is_new before
  ∧ movie_created_at after = movie_created_at before
  ∧ movie_user_id after = movie_user_id before.

(** ** Handlers: database state and exceptions *)

Definition handler (A : Type) : Type := database → outcome A * database.

#[global] Instance handler_ret : MRet handler :=
  λ A a db, (Return a, db).

#[global] Instance handler_bind : MBind handler :=
  λ A B k m db,
    match m db with
    | (Return a, db') => k a db'
    | (Raise e, db') => (Raise e, db')
    end.

Definition raise {A : Type} (e : exn) : handler A := λ db, (Raise e, db).

Definition lift {A : Type} (o : outcome A) : handler A := λ db, (o, db).

(** ** The statements sent through [Database.fetchrow], [Database.fetch]
    and [Database.execute]

    One function per SQL text of the source.  [fetchrow] gives the first
    row of the result or [None]. *)

Module Database.

Definition in_int64 (z : Z) : bool := (- 2 ^ 63 <=? z) && (z <? 2 ^ 63).

(** The table definitions are not under src/.  The ids and the duration
    are taken as [INTEGER] columns: a parameter compared with one of them
    or stored in it travels as a 32-bit integer, and asyncpg refuses
    ([DataError]) a value that is no integer or is out of that range before
    the statement reaches the server.  With [BIGINT] columns the bound
    would be that of [in_int64]; the properties of Part II ask for the
    narrow range where they need the statement to run, and for a value
    out of the wide range where they need it refused. *)
Definition in_int32 (z : Z) : bool := (- 2 ^ 31 <=? z) && (z <? 2 ^ 31).

(** [SELECT * FROM users WHERE id = $1 AND is_active = true]

    [$1] is the [sub] claim as the token check hands it over. *)
Definition fetchrow_active_user (id : json) : handler (option user_row) :=
  λ db,
    match id with
    | JStr _ =>
        (Raise (PostgresError "invalid input for query argument $1"),
         db)
    | JInt z =>
        if negb (in_int32 z)
        then (Raise (PostgresError "invalid input for query argument $1"),
              db)
        else (Return (find (λ u, bool_decide (user_id u = z)
                                 && user_is_active u) (users db)), db)
    end.

(** [SELECT id FROM users WHERE email = $1] *)
Definition fetchrow_user_id_by_email (e : string) : handler (option Z) :=
  λ db, (Return (user_id <$> find (λ u, bool_decide (user_email u = e))
                                  (users db)), db).

(** [SELECT id, password_hash FROM users WHERE email = $1 AND is_active = true] *)
Definition fetchrow_login (e : string) : handler (option (Z * string)) :=
  λ db, (Return ((λ u, (user_id u, user_password_hash u)) <$>
                 find (λ u, bool_decide (user_email u = e) && user_is_active u)
                      (users db)), db).

(** Modelled from the spec: the table definitions are not under src/.
    Section 3 gives them: the id is assigned by storage on insert, the
    active flag defaults to true, and email uniqueness is enforced at the
    storage layer.

    [INSERT INTO users (email, username, password_hash, created_at)
     VALUES ($1, $2, $3, $4) RETURNING id] *)
Definition insert_user (e u h : string) (created_at : Z) : handler Z :=
  λ db,
    if existsb (λ r, bool_decide (user_email r = e)) (users db)
    then (Raise (PostgresError "unique_violation"), db)
    else
      let id := users_id_seq db in
      (Return id,
       set_users (users db ++
                  [ {| user_id := id; user_email := e; user_username := u;
                       user_password_hash := h; user_created_at := created_at;
                       user_is_active := true |} ])
                 (id + 1) db).

Definition genre_matches (g : option string) (m : movie_row) : bool :=
  match g with
  | None => true
  | Some s => bool_decide (movie_genre m = s)
  end.

(** [ORDER BY created_at DESC]: a row stands before the rows created no
    later than it.  The engine is free in the order of rows created at the
    same instant; the model takes the one merge sort gives. *)
Definition newer_first (a b : movie_row) : Prop :=
  movie_created_at b ≤ movie_created_at a.

#[global] Instance newer_first_dec : RelDecision newer_first :=
  λ a b, Z_le_dec (movie_created_at b) (movie_created_at a).

(** [SELECT * FROM movies WHERE ($1::text IS NULL OR genre = $1)
     ORDER BY created_at DESC LIMIT $2 OFFSET $3]

    [$2] and [$3] travel as 64-bit integers, and PostgreSQL refuses a
    negative LIMIT or OFFSET. *)
Definition fetch_movies (g : option string) (limit offset : Z)
    : handler (list movie_row) :=
  λ db,
    if negb (in_int64 limit && in_int64 offset)
    then (Raise (PostgresError "value out of int64 range"), db)
    else if offset <? 0
    then (Raise (PostgresError "OFFSET must not be negative"), db)
    else if limit <? 0
    then (Raise (PostgresError "LIMIT must not be negative"), db)
    else (Return (take (Z.to_nat limit)
                    (drop (Z.to_nat offset)
                       (merge_sort newer_first
                          (filter (λ m, genre_matches g m) (movies db))))),
          db).

(** [SELECT * FROM movies WHERE id = $1] *)
Definition fetchrow_movie (id : Z) : handler (option movie_row) :=
  λ db,
    if negb (in_int32 id)
    then (Raise (PostgresError "invalid input for query argument $1"),
          db)
    else (Return (find (λ m, bool_decide (movie_id m = id)) (movies db)), db).

(** [UPDATE movies SET views_count = views_count + 1 WHERE id = $1] *)
Definition execute_add_view (id : Z) : handler unit :=
  λ db,
    if negb (in_int32 id)
    then (Raise (PostgresError "invalid input for query argument $1"),
          db)
    else
      (Return tt,
       set_movies (map (λ m, if bool_decide (movie_id m = id) then add_view m
                             else m)
                       (movies db))
                  (movies_id_seq db) db).

(** Modelled from the spec: the table definitions are not under src/.
    Section 3 gives them: the id is assigned by storage and the view
    counter starts at 0.

    [INSERT INTO movies (title, genre, duration, rating, description,
     poster_url, is_new, created_at, user_id)
     VALUES ($1, ..., $9) RETURNING *]

    [$3] and [$9] are the integers among the parameters: nothing is
    stored when one of them is out of range. *)
Definition insert_movie (m : MovieCreate) (created_at creator : Z)
    : handler movie_row :=
  λ db,
    if negb (in_int32 (duration m))
    then (Raise (PostgresError "invalid input for query argument $3"),
          db)
    else if negb (in_int32 creator)
    then (Raise (PostgresError "invalid input for query argument $9"),
          db)
    else
      let row :=
        {| movie_id := movies_id_seq db; movie_title := title m;
           movie_genre := genre m; movie_duration := duration m;
           movie_rating := rating m; movie_description := description m;
           movie_poster_url := poster_url m; movie_is_new := is_new m;
           movie_created_at := created_at; movie_views_count := 0;
           movie_user_id := creator |} in
      (Return row, set_movies (movies db ++ [row]) (movies_id_seq db + 1) db).

End Database.

(** ** FastAPI: the bearer scheme and the response model *)

Module fastapi.

(** Modelled from the spec: the status [HTTPBearer] raises when a request
    has no usable bearer credentials is decided inside FastAPI, which is
    not under src/; section 4.4, step 1, gives 401. *)
Definition HTTPBearer_error_status : Z := 401.

(** [security = HTTPBearer()]: the header is absent, or has been split at
    its first space into a scheme and the credentials. *)
Definition HTTPBearer (authorization : option (string * jwt.token))
    : outcome HTTPAuthorizationCredentials :=
  match authorization with
  | None => Raise (HTTPException HTTPBearer_error_status "Not authenticated")
  | Some (sch, param) =>
      if bool_decide (sch = "") || bool_decide (param = jwt.Unparsed "")
      then Raise (HTTPException HTTPBearer_error_status "Not authenticated")
      else if negb (bool_decide (lower sch = "bearer"))
      then Raise (HTTPException HTTPBearer_error_status "Not authenticated")
      else Return {| scheme := sch; credentials := param |}
  end.

(** [response_model=Movie]: what the endpoint returned is validated
    against the model before the answer is written, and Python's [None]
    is no [Movie].  A row of the movies table is taken to fit the model,
    of which it has every field. *)
Definition validate_response_Movie (content : option movie_row)
    : outcome Movie :=
  match content with
  | Some row => Return (Movie_of_row row)
  | None => Raise ResponseValidationError
  end.

End fastapi.

(** ** The application *)

Section App.

(** bcrypt's key derivation and PyJWT's signing primitive. *)
Variable kdf : bytes → bytes → bytes.
Variable sign : string → string → string * gmap string json → bytes.

(** [SECRET_KEY = os.getenv("SECRET_KEY", ...)] *)
Variable SECRET_KEY : string.

(** [salt] is the value drawn by [bcrypt.gensalt()]. *)
Definition hash_password (salt : bytes) (password : string) : outcome string :=
  match bcrypt.hashpw kdf (encode_utf8 password) salt with
  | Return h => Return (decode_utf8 h)
  | Raise e => Raise e
  end.

Definition verify_password (plain_password hashed_password : string)
    : outcome bool :=
  bcrypt.checkpw kdf (encode_utf8 plain_password) (encode_utf8 hashed_password).

(** [utcnow] is the clock as the function reads it. *)
Definition create_access_token (data : gmap string json) (utcnow : Z)
    : jwt.token :=
  let to_encode := data in
  let expire := utcnow + ACCESS_TOKEN_EXPIRE_MINUTES * 60 in
  let to_encode := <["exp" := JInt expire]> to_encode in
  jwt.encode sign to_encode SECRET_KEY ALGORITHM.

(** The [try] block of [get_current_user]: the subject of the token, or
    the 401 it raises. *)
Definition token_subject (token : jwt.token) (now : Z) : outcome json :=
  match jwt.decode sign token SECRET_KEY [ALGORITHM] now with
  | Return payload =>
      match payload !! "sub" with
      | Some uid => Return uid
      | None => Raise (HTTPException HTTP_401_UNAUTHORIZED
                         "Invalid authentication credentials")
      end
  | Raise (PyJWTError _) =>
      Raise (HTTPException HTTP_401_UNAUTHORIZED
               "Invalid authentication credentials")
  | Raise e => Raise e
  end.

Definition get_current_user (creds : HTTPAuthorizationCredentials) (now : Z)
    : handler user_row :=
  let token := credentials creds in
  user_id ← lift (token_subject token now);
  user ← Database.fetchrow_active_user user_id;
  match user with
  | None => raise (HTTPException HTTP_404_NOT_FOUND "User not found")
  | Some u => mret u
  end.

(** [utcnow_row] and [utcnow_token] are the two readings of the clock. *)
Definition register (user : UserCreate) (salt : bytes)
    (utcnow_row utcnow_token : Z) : handler Token :=
  existing ← Database.fetchrow_user_id_by_email (email user);
  match existing with
  | Some _ =>
      raise (HTTPException HTTP_400_BAD_REQUEST "Email already registered")
  | None =>
      hashed_password ← lift (hash_password salt (password user));
      new_user ← Database.insert_user (email user) (username user)
                   hashed_password utcnow_row;
      mret {| access_token :=
                create_access_token {[ "sub" := JInt new_user ]} utcnow_token;
              token_type := "bearer" |}
  end.

Definition login (request : LoginRequest) (utcnow : Z) : handler Token :=
  user ← Database.fetchrow_login (login_email request);
  match user with
  | None =>
      raise (HTTPException HTTP_401_UNAUTHORIZED "Incorrect email or password")
  | Some (uid, password_hash) =>
      ok ← lift (verify_password (login_password request) password_hash);
      if negb ok
      then raise (HTTPException HTTP_401_UNAUTHORIZED
                    "Incorrect email or password")
      else mret {| access_token :=
                     create_access_token {[ "sub" := JInt uid ]} utcnow;
                   token_type := "bearer" |}
  end.

Definition get_movies (skip limit : Z) (genre : option string)
    : handler (list movie_row) :=
  rows ← Database.fetch_movies genre limit skip;
  mret rows.

Definition get_movie (movie_id : Z) : handler movie_row :=
  movie ← Database.fetchrow_movie movie_id;
  match movie with
  | None => raise (HTTPException HTTP_404_NOT_FOUND "Movie not found")
  | Some m =>
      _ ← Database.execute_add_view movie_id;
      mret m
  end.

(** The body ends after the INSERT, without a [return]: the value of the
    call is Python's [None], here [None : option movie_row]. *)
Definition create_movie (movie : MovieCreate) (current_user : user_row)
    (now : Z) : handler (option movie_row) :=
  new_movie ← Database.insert_movie movie now (user_id current_user);
  mret None.

(** A path operation with [Depends(get_current_user)]: the dependencies
    [security] and [get_current_user] are resolved from the request, then
    the endpoint runs with the user they give. *)
Definition Depends_get_current_user {A : Type}
    (authorization : option (string * jwt.token)) (now : Z)
    (endpoint : user_row → handler A) : handler A :=
  creds ← lift (fastapi.HTTPBearer authorization);
  current_user ← get_current_user creds now;
  endpoint current_user.

(** The endpoint of [POST /api/movies] and what FastAPI makes of its
    value: the answer of the route once its dependencies have given a
    user. *)
Definition create_movie_response (movie : MovieCreate)
    (current_user : user_row) (now : Z) : handler Movie :=
  content ← create_movie movie current_user now;
  lift (fastapi.validate_response_Movie content).

(** [POST /api/movies] *)
Definition post_api_movies (authorization : option (string * jwt.token))
    (movie : MovieCreate) (now_verify now_insert : Z) : handler Movie :=
  Depends_get_current_user authorization now_verify
    (λ current_user, create_movie_response movie current_user now_insert).

End App.

(** [n] calls of [get_movie] for the same id, one after the other: the
    database they leave behind. *)
Fixpoint get_movie_times (n : nat) (id : Z) (db : database) : database :=
  match n with
  | O => db
  | S n' => get_movie_times n' id (snd (get_movie id db))
  end.

(** ** Assumptions on the primitives and predicates on requests *)

(** The shape of a digest: bcrypt writes 31 characters of its alphabet. *)
Definition kdf_digest (kdf : bytes → bytes → bytes) : Prop :=
  ∀ cost_salt password,
    length (kdf cost_salt password) = 31%nat
    ∧ forallb bcrypt.is_salt_char (kdf cost_salt password) = true.

(** The 401 of [get_current_user]. *)
Definition credentials_exception : exn :=
  HTTPException HTTP_401_UNAUTHORIZED "Invalid authentication credentials".

(** The request carries a valid bearer token: the scheme hands over
    credentials whose token passes the check at [now]. *)
Definition carries_valid_bearer_token
    (sign : string → string → string * gmap string json → bytes)
    (SECRET_KEY : string) (authorization : option (string * jwt.token))
    (now : Z) : Prop :=
  ∃ creds uid,
    fastapi.HTTPBearer authorization = Return creds
    ∧ token_subject sign SECRET_KEY (credentials creds) now = Return uid.

(** ** Concrete stand-ins for the primitives

    Used where a statement has to be evaluated: a key derivation that
    keeps the whole password in the digest, one that writes a digest of
    the right shape from the head of the password, and a signature that
    is a code of the algorithm, the key and the signing input. *)

Definition transparent_kdf (settings password : bytes) : bytes := password.

Definition padded_kdf (settings password : bytes) : bytes :=
  take 31 (map (λ c, if bcrypt.is_salt_char c then c else "."%byte) password
           ++ replicate 31 "."%byte).

Fixpoint bits_of_positive (p : positive) : bytes :=
  match p with
  | xH => []
  | xO q => x30 :: bits_of_positive q
  | xI q => x31 :: bits_of_positive q
  end.

Definition transparent_sign (algorithm key : string)
    (input : string * gmap string json) : bytes :=
  bits_of_positive (encode (algorithm, key, input)).

Definition sample_salt : bytes := encode_utf8 "$2b$12$abcdefghijklmnopqrstuu".

(** A password of 73 bytes. *)
Definition long_password : string :=
  "aaaaaaaaaaaaaaaaaaaaaaaaaaaaaaaaaaaaaaaaaaaaaaaaaaaaaaaaaaaaaaaaaaaaaaaaa".

(** A small database: an active user, a deactivated one, three movies. *)

Definition alice : user_row :=
  {| user_id := 1; user_email := "a@x.com"; user_username := "alice";
     user_password_hash := "$2b$12$abcdefghijklmnopqrstuusecret1";
     user_created_at := 100; user_is_active := true |}.

Definition bob : user_row :=
  {| user_id := 2; user_email := "b@x.com"; user_username := "bob";
     user_password_hash := "$2b$12$abcdefghijklmnopqrstuusecret2";
     user_created_at := 110; user_is_active := false |}.

Definition sample_movie (id : Z) (g : string) (created views : Z) : movie_row :=
  {| movie_id := id; movie_title := "A title"; movie_genre := g;
     movie_duration := 120; movie_rating := 4.5%float;
     movie_description := "A description"; movie_poster_url := "poster.png";
     movie_is_new := false; movie_created_at := created;
     movie_views_count := views; movie_user_id := 1 |}.

Definition sample_db : database :=
  {| users := [alice; bob];
     movies := [sample_movie 1 "Drama" 200 5; sample_movie 2 "Crime" 300 0;
                sample_movie 3 "Drama" 400 9];
     users_id_seq := 3; movies_id_seq := 4 |}.

Definition sample_request : MovieCreate :=
  {| title := "A title"; genre := "Drama"; duration := 95;
     rating := 3.5%float; description := "A description";
     poster_url := "poster.png"; is_new := true |}.

(** Requests of the deactivated user and of the active one, with the
    tokens a login gave them. *)


Definition alice_authorization : option (string * jwt.token) :=
  Some ("Bearer",
        create_access_token transparent_sign "k" {[ "sub" := JInt 1 ]} 1000).

(** Unfolding of the handler combinators. *)

Ltac run_handler :=
  unfold Depends_get_current_user, get_current_user, mbind, handler_bind,
    mret, handler_ret, lift, raise; simpl.


(** ** The routes of the application

    One request per path operation of the file.  A request carries what
    its handler reads from outside the database: the salt drawn by
    [bcrypt.gensalt()] and the readings of the clock. *)

(** [GET /] *)
Definition root : handler (list (string * string)) :=
  mret [("message", "Frame API is running"); ("version", "1.0.0");
        ("docs", "/docs")].

Inductive request : Type :=
  | GET_root
  | POST_auth_register (user : UserCreate) (salt : bytes)
      (utcnow_row utcnow_token : Z)
  | POST_auth_login (body : LoginRequest) (utcnow : Z)
  | GET_movies (skip limit : Z) (genre : option string)
  | GET_movie (movie_id : Z)
  | POST_movies (authorization : option (string * jwt.token))
      (movie : MovieCreate) (now_verify now_insert : Z).

Section Routes.

Variable kdf : bytes → bytes → bytes.
Variable sign : string → string → string * gmap string json → bytes.
Variable SECRET_KEY : string.

(** The database a request leaves behind. *)
Definition serve (r : request) (db : database) : database :=
  match r with
  | GET_root => snd (root db)
  | POST_auth_register user salt utcnow_row utcnow_token =>
      snd (register kdf sign SECRET_KEY user salt utcnow_row utcnow_token db)
  | POST_auth_login body utcnow =>
      snd (login kdf sign SECRET_KEY body utcnow db)
  | GET_movies skip limit genre => snd (get_movies skip limit genre db)
  | GET_movie movie_id => snd (get_movie movie_id db)
  | POST_movies authorization movie now_verify now_insert =>
      snd (post_api_movies sign SECRET_KEY authorization movie now_verify
             now_insert db)
  end.

(** Requests served one after the other. *)
Definition serve_all (rs : list request) (db : database) : database :=
  foldl (λ d r, serve r d) db rs.

End Routes.

(** [after] is [before] with at least as many views and nothing else
    changed. *)
Definition views_grown (before after : movie_row) : Prop :=
  movie_views_count before ≤ movie_views_count after
  ∧ movie_id after = movie_id before
  ∧ movie_title after = movie_title before
  ∧ movie_genre after = movie_genre before
  ∧ movie_duration after = movie_duration before
  ∧ movie_rating after = movie_rating before
  ∧ movie_description after = movie_description before
  ∧ movie_poster_url after = movie_poster_url before
  ∧ movie_is_new after = movie_is_new before
  ∧ movie_created_at after = movie_created_at before
  ∧ movie_user_id after = movie_user_id before.

(** No two stored movies were created at the same instant. *)
Definition distinct_creation_times (ms : list movie_row) : Prop :=
  ∀ i j a b, ms !! i = Some a → ms !! j = Some b →
             movie_created_at a = movie_created_at b → i = j.

(** ** The connection pool of the [Database] class

    The process holds the pools it has created, in the order of their
    creation, each open or closed, and the class attribute [Database.pool]:
    [None], or a reference to one of them. *)

Module Pool.

Record config : Type := {
  dsn : string;
  min_size : Z;
  max_size : Z;
  command_timeout : Z
}.

Record pool : Type := {
  settings : config;
  closed : bool
}.

Record process : Type := {
  pools : list pool;
  Database_pool : option nat
}.

(** The process before startup: [pool: Optional[asyncpg.Pool] = None]. *)
Definition initial : process := {| pools := []; Database_pool := None |}.

Definition close (p : pool) : pool := {| settings := settings p; closed := true |}.

(** What [connect] can meet: [asyncpg.create_pool] gives a pool or raises. *)
Inductive create_pool_result : Type :=
  | Created
  | Failed (reason : string).

(** [Database.connect]: a pool is created only when the class has none.
    [result] is what [asyncpg.create_pool] does if it is called. *)
Definition connect (DATABASE_URL : string) (result : create_pool_result)
    (s : process) : option string * process :=
  match Database_pool s with
  | Some _ => (None, s)
  | None =>
      match result with
      | Created =>
          (None,
           {| pools := pools s ++
                       [ {| settings := {| dsn := DATABASE_URL; min_size := 10;
                                           max_size := 20;
                                           command_timeout := 60 |};
                            closed := false |} ];
              Database_pool := Some (length (pools s)) |})
      | Failed reason => (Some reason, s)
      end
  end.

(** [Database.disconnect]: the pool of the class, if any, is closed and
    the attribute reset. *)
Definition disconnect (s : process) : process :=
  match Database_pool s with
  | Some i => {| pools := alter close i (pools s); Database_pool := None |}
  | None => s
  end.

(** The calls the lifecycle hooks and their callers can make. *)
Inductive event : Type :=
  | Connect (DATABASE_URL : string) (result : create_pool_result)
  | Disconnect.

Definition run_event (e : event) (s : process) : process :=
  match e with
  | Connect url result => snd (connect url result s)
  | Disconnect => disconnect s
  end.

Definition run (es : list event) (s : process) : process :=
  foldl (λ st e, run_event e st) s es.

(** The pool a statement acquires its connection from:
    [cls.pool.acquire()] has no pool to ask when the attribute is [None]. *)
Definition current (s : process) : option pool :=
  i ← Database_pool s; pools s !! i.

End Pool.

(** The pool the class refers to is open, and it is the only open one. *)
Definition one_open_pool (s : Pool.process) : Prop :=
  ∀ i p, Pool.pools s !! i = Some p →
         (Pool.closed p = false ↔ Pool.Database_pool s = Some i).

(** The sizes and the timeout [connect] asks for. *)
Definition configured (p : Pool.pool) : Prop :=
  Pool.min_size (Pool.settings p) = 10
  ∧ Pool.max_size (Pool.settings p) = 20
  ∧ Pool.command_timeout (Pool.settings p) = 60.

(** * Part II: properties *)

(** ** Strings and bytes *)

Lemma decode_encode_utf8 (s : string) : decode_utf8 (encode_utf8 s) = s.
Proof. apply String.string_of_list_byte_of_string. Qed.

Lemma encode_decode_utf8 (b : bytes) : encode_utf8 (decode_utf8 b) = b.
Proof. apply String.list_byte_of_string_of_list_byte. Qed.

Lemma encode_utf8_inj (s1 s2 : string) :
  encode_utf8 s1 = encode_utf8 s2 → s1 = s2.
Proof.
  intros H. rewrite <- (decode_encode_utf8 s1), <- (decode_encode_utf8 s2).
  by rewrite H.
Qed.

(** ** bcrypt *)

Lemma split_on_app (sep : byte) (w s : bytes) :
  sep ∉ w →
  bcrypt.split_on sep (w ++ sep :: s) = w :: bcrypt.split_on sep s.
Proof.
  induction w as [|c w IH]; simpl.
  - intros _. by rewrite bool_decide_eq_true_2.
  - intros Hn. apply not_elem_of_cons in Hn as [Hc Hw].
    rewrite bool_decide_eq_false_2 by congruence. by rewrite IH.
Qed.

Lemma split_on_no_sep (sep : byte) (s : bytes) :
  sep ∉ s → bcrypt.split_on sep s = [s].
Proof.
  induction s as [|c s IH]; simpl; [done|].
  intros Hn. apply not_elem_of_cons in Hn as [Hc Hs].
  rewrite bool_decide_eq_false_2 by congruence. by rewrite IH.
Qed.



Lemma salt_chars_no_dollar (l : bytes) :
  forallb bcrypt.is_salt_char l = true → "$"%byte ∉ l.
Proof.
  intros Hall Hin. apply list_elem_of_In in Hin.
  pose proof (proj1 (forallb_forall _ _) Hall _ Hin) as H. discriminate H.
Qed.

Lemma is_raw_salt_spec (raw : bytes) :
  bcrypt.is_raw_salt raw = true →
  length raw = 22%nat ∧ forallb bcrypt.is_salt_char raw = true.
Proof.
  unfold bcrypt.is_raw_salt. intros H.
  apply andb_prop in H as [H _]. apply andb_prop in H as [Hlen Hall].
  by apply bool_decide_eq_true in Hlen.
Qed.

(** A hash with the head [gensalt] writes is read back, whatever digest
    of the alphabet follows the salt. *)
Lemma read_settings_hash (raw digest : bytes) :
  bcrypt.is_raw_salt raw = true → "$"%byte ∉ digest →
  bcrypt.read_settings (bcrypt.gensalt_prefix ++ raw ++ digest)
  = Some {| bcrypt.version := ["2"; "b"]%byte; bcrypt.cost := 12;
            bcrypt.raw_salt := raw |}.
Proof.
  intros Hraw Hdigest.
  destruct (is_raw_salt_spec raw Hraw) as [Hlen Hall].
  unfold bcrypt.read_settings.
  change (bcrypt.gensalt_prefix ++ raw ++ digest)
    with ([] ++ "$"%byte ::
          (["2"; "b"]%byte ++ "$"%byte ::
           (["1"; "2"]%byte ++ "$"%byte :: (raw ++ digest)))).
  rewrite !split_on_app, split_on_no_sep.
  - rewrite take_app_length' by done.
    change (bcrypt.parse_cost ["1"%byte; "2"%byte]) with (Some 12).
    cbv iota. by rewrite Hraw.
  - intros Hin. apply elem_of_app in Hin as [Hin|Hin]; [|done].
    by apply (salt_chars_no_dollar raw).
  - apply (bool_decide_unpack _). vm_compute. exact I.
  - apply (bool_decide_unpack _). vm_compute. exact I.
  - apply not_elem_of_nil.
Qed.

Lemma gensalt_settings (raw : bytes) :
  bcrypt.format_settings
    {| bcrypt.version := ["2"; "b"]%byte; bcrypt.cost := 12;
       bcrypt.raw_salt := raw |}
  = bcrypt.gensalt_prefix ++ raw
  ∧ bcrypt.cost_and_salt
      {| bcrypt.version := ["2"; "b"]%byte; bcrypt.cost := 12;
         bcrypt.raw_salt := raw |}
    = drop 4 (bcrypt.gensalt_prefix ++ raw).
Proof. split; reflexivity. Qed.

Lemma gensalt_shape (salt : bytes) :
  bcrypt.is_gensalt salt →
  ∃ raw, salt = bcrypt.gensalt_prefix ++ raw ∧ bcrypt.is_raw_salt raw = true.
Proof.
  intros [Hhead Hraw]. exists (drop 7 salt). split; [|done].
  by rewrite <- Hhead, take_drop.
Qed.

Lemma gensalt_length (salt : bytes) :
  bcrypt.is_gensalt salt → length salt = 29%nat.
Proof.
  intros (raw & -> & Hraw)%gensalt_shape.
  destruct (is_raw_salt_spec raw Hraw) as [Hlen _].
  rewrite length_app, Hlen. reflexivity.
Qed.

Lemma kdf_digest_no_dollar (kdf : bytes → bytes → bytes) (s p : bytes) :
  kdf_digest kdf → "$"%byte ∉ kdf s p.
Proof. intros Hk. apply salt_chars_no_dollar, Hk. Qed.

(** With a salt of [gensalt], the hash is the salt followed by the
    digest. *)
Lemma hashpw_gensalt (kdf : bytes → bytes → bytes) (pw salt : bytes) :
  bcrypt.is_gensalt salt → (length pw ≤ 72)%nat →
  bcrypt.hashpw kdf pw salt = Return (salt ++ kdf (drop 4 salt) pw).
Proof.
  intros (raw & -> & Hraw)%gensalt_shape Hpw. unfold bcrypt.hashpw.
  rewrite (proj2 (Nat.ltb_ge 72 (length pw))) by done.
  rewrite <- (app_nil_r raw) at 1.
  rewrite read_settings_hash by (done || apply not_elem_of_nil).
  destruct (gensalt_settings raw) as [-> ->]. reflexivity.
Qed.

Lemma hashpw_long_password (kdf : bytes → bytes → bytes) (pw salt : bytes) :
  (72 < length pw)%nat →
  ∃ msg, bcrypt.hashpw kdf pw salt = Raise (ValueError msg).
Proof.
  intros Hpw. unfold bcrypt.hashpw.
  rewrite (proj2 (Nat.ltb_lt 72 (length pw))) by done. by eexists.
Qed.

Lemma checkpw_hashed (kdf : bytes → bytes → bytes) (pw salt digest : bytes) :
  bcrypt.is_gensalt salt → "$"%byte ∉ digest → (length pw ≤ 72)%nat →
  bcrypt.checkpw kdf pw (salt ++ digest)
  = Return (bool_decide (kdf (drop 4 salt) pw = digest)).
Proof.
  intros (raw & -> & Hraw)%gensalt_shape Hdigest Hpw.
  unfold bcrypt.checkpw, bcrypt.hashpw.
  rewrite (proj2 (Nat.ltb_ge 72 (length pw))) by done.
  rewrite <- app_assoc, read_settings_hash by done.
  destruct (gensalt_settings raw) as [-> ->].
  f_equal. apply bool_decide_ext. rewrite <- app_assoc.
  split; [intros H; by simplify_list_eq|by intros ->].
Qed.


(** ** Credential helpers *)

Lemma padded_kdf_digest : kdf_digest padded_kdf.
Proof.
  intros s p. unfold padded_kdf. split.
  - rewrite length_take, length_app, length_map, length_replicate. lia.
  - apply forallb_forall. intros x Hx.
    apply list_elem_of_In, subseteq_take, elem_of_app in Hx as [Hx|Hx].
    + apply list_elem_of_fmap in Hx as (c & -> & _).
      by destruct (bcrypt.is_salt_char c) eqn:Hc.
    + by apply elem_of_replicate in Hx as [-> _].
Qed.

Lemma sample_salt_is_gensalt : bcrypt.is_gensalt sample_salt.
Proof. split; reflexivity. Qed.

Lemma hash_password_gensalt (kdf : bytes → bytes → bytes) (salt : bytes)
    (p : string) :
  bcrypt.is_gensalt salt → (length (encode_utf8 p) ≤ 72)%nat →
  hash_password kdf salt p
  = Return (decode_utf8 (salt ++ kdf (drop 4 salt) (encode_utf8 p))).
Proof.
  intros Hs Hp. unfold hash_password. by rewrite hashpw_gensalt.
Qed.

Lemma verify_password_hashed (kdf : bytes → bytes → bytes) (salt : bytes)
    (p q : string) :
  kdf_digest kdf → bcrypt.is_gensalt salt →
  (length (encode_utf8 q) ≤ 72)%nat →
  verify_password kdf q
    (decode_utf8 (salt ++ kdf (drop 4 salt) (encode_utf8 p)))
  = Return (bool_decide (kdf (drop 4 salt) (encode_utf8 q)
                         = kdf (drop 4 salt) (encode_utf8 p))).
Proof.
  intros Hk Hs Hq. unfold verify_password. rewrite encode_decode_utf8.
  apply checkpw_hashed; [done| |done]. by apply kdf_digest_no_dollar.
Qed.

Lemma verify_password_long_password (kdf : bytes → bytes → bytes)
    (p h : string) :
  (72 < length (encode_utf8 p))%nat →
  ∃ msg, verify_password kdf p h = Raise (ValueError msg).
Proof.
  intros Hp. unfold verify_password, bcrypt.checkpw.
  destruct (hashpw_long_password kdf (encode_utf8 p) (encode_utf8 h) Hp)
    as [msg ->].
  by exists msg.
Qed.

(** C4, as the code has it.  With a salt drawn by gensalt and a password
    of at most 72 bytes, hash_password returns a hash h such that
    verify_password p h is true, and verify_password p2 h, for another
    password p2 of at most 72 bytes, is true exactly when bcrypt derives
    from p2 the digest it derived from p under the cost and salt of h.
    For a password of more than 72 bytes hash_password raises ValueError,
    and so does verify_password whatever the hash. *)
Theorem verify_hash_password_roundtrip (kdf : bytes → bytes → bytes)
    (salt : bytes) (p : string) :
  kdf_digest kdf → bcrypt.is_gensalt salt →
  ((length (encode_utf8 p) ≤ 72)%nat →
   ∃ h, hash_password kdf salt p = Return h
        ∧ verify_password kdf p h = Return true
        ∧ ∀ p2, (length (encode_utf8 p2) ≤ 72)%nat →
            verify_password kdf p2 h
            = Return (bool_decide
                        (kdf (drop 4 salt) (encode_utf8 p2)
                         = kdf (drop 4 salt) (encode_utf8 p))))
  ∧ ((72 < length (encode_utf8 p))%nat →
     (∃ msg, hash_password kdf salt p = Raise (ValueError msg))
     ∧ ∀ h, ∃ msg, verify_password kdf p h = Raise (ValueError msg)).
Proof.
  intros Hk Hs. split.
  - intros Hp. eexists. split; [by apply hash_password_gensalt|].
    split.
    + rewrite verify_password_hashed by done.
      by rewrite bool_decide_eq_true_2.
    + intros p2 Hp2. by apply verify_password_hashed.
  - intros Hp. split.
    + unfold hash_password.
      destruct (hashpw_long_password kdf (encode_utf8 p) salt Hp) as [msg ->].
      by exists msg.
    + intros h. by apply verify_password_long_password.
Qed.

Lemma verify_hash_password_roundtrip_witness :
  (∃ h, hash_password padded_kdf sample_salt "secret1" = Return h
        ∧ verify_password padded_kdf "secret1" h = Return true
        ∧ verify_password padded_kdf "guess" h = Return false)
  ∧ ∃ msg, hash_password padded_kdf sample_salt long_password
           = Raise (ValueError msg).
Proof.
  split.
  - destruct (proj1 (verify_hash_password_roundtrip padded_kdf sample_salt
                       "secret1" padded_kdf_digest sample_salt_is_gensalt))
      as (h & Hh & Hsame & Hother); [simpl; lia|].
    exists h. split; [exact Hh|]. split; [exact Hsame|].
    rewrite (Hother "guess") by (simpl; lia). reflexivity.
  - apply (proj2 (verify_hash_password_roundtrip padded_kdf sample_salt
                    long_password padded_kdf_digest sample_salt_is_gensalt)).
    simpl. lia.
Defined.

(** C4 as stated fails: for a password of 73 bytes, which the request
    model admits, hash_password raises, so there is no hash to verify. *)
Lemma hash_password_refuses_long_password :
  hash_password padded_kdf sample_salt long_password
  = Raise (ValueError "password cannot be longer than 72 bytes, truncate manually if necessary (e.g. my_password[:72])")
  ∧ ¬ (∀ (kdf : bytes → bytes → bytes) (salt : bytes) (p : string),
         kdf_digest kdf → bcrypt.is_gensalt salt →
         ∃ h, hash_password kdf salt p = Return h
              ∧ verify_password kdf p h = Return true).
Proof.
  assert (H0 : hash_password padded_kdf sample_salt long_password
               = Raise (ValueError "password cannot be longer than 72 bytes, truncate manually if necessary (e.g. my_password[:72])")).
  { reflexivity. }
  split; [exact H0|].
  intros H.
  destruct (H padded_kdf sample_salt long_password padded_kdf_digest
              sample_salt_is_gensalt) as (h & Hh & _).
  rewrite H0 in Hh. discriminate Hh.
Qed.




(** ** Tokens *)

Lemma validate_raises (ok : bool) (error : string) (e : exn) :
  jwt.validate ok error = Raise e → ∃ what, e = PyJWTError what.
Proof. destruct ok; intros [= <-]. by eexists. Qed.

Lemma validate_time_raises (payload : gmap string json)
    (claim not_int : string) (refused : Z → bool) (error : string) (e : exn) :
  jwt.validate_time payload claim not_int refused error = Raise e →
  ∃ what, e = PyJWTError what.
Proof.
  unfold jwt.validate_time.
  destruct (payload !! claim) as [v|]; [|discriminate].
  destruct (int v) as [z|]; [apply validate_raises|].
  intros [= <-]. by eexists.
Qed.

Lemma validate_claims_raises (payload : gmap string json) (now : Z) (e : exn) :
  jwt.validate_claims payload now = Raise e → ∃ what, e = PyJWTError what.
Proof.
  unfold jwt.validate_claims, mbind, outcome_bind.
  repeat match goal with
         | |- context [match ?o with Return _ => _ | Raise _ => _ end] =>
             let H := fresh "H" in
             destruct o as [[]|?] eqn:H;
             [|intros [= <-];
               first [by eapply validate_time_raises
                     |by eapply validate_raises]]
         end.
  apply validate_raises.
Qed.

Section Tokens.

Variable sign : string → string → string * gmap string json → bytes.
Variable SECRET_KEY : string.

(** [jwt.decode] raises nothing but the errors of the package. *)
Lemma decode_raises (tok : jwt.token) (key : string)
    (algorithms : list string) (now : Z) (e : exn) :
  jwt.decode sign tok key algorithms now = Raise e →
  ∃ what, e = PyJWTError what.
Proof.
  unfold jwt.decode. destruct tok as [raw|t].
  { intros [= <-]. by eexists. }
  destruct (negb _); [intros [= <-]; by eexists|].
  destruct (negb _); [intros [= <-]; by eexists|].
  unfold mbind, outcome_bind.
  destruct (jwt.validate_claims (jwt.claims t) now) as [[]|e'] eqn:Hv;
    [discriminate|].
  intros [= <-]. by eapply validate_claims_raises.
Qed.

(** The check never lets another exception through: it returns a subject
    or raises the 401. *)
Lemma token_subject_cases (tok : jwt.token) (now : Z) :
  (∃ uid, token_subject sign SECRET_KEY tok now = Return uid)
  ∨ token_subject sign SECRET_KEY tok now = Raise credentials_exception.
Proof.
  unfold token_subject.
  destruct (jwt.decode sign tok SECRET_KEY [ALGORITHM] now) as [payload|e]
    eqn:Hd.
  - destruct (payload !! "sub"); eauto.
  - apply decode_raises in Hd as [what ->]. by right.
Qed.

Lemma token_subject_rejects (tok : jwt.token) (now : Z) :
  (∀ uid, token_subject sign SECRET_KEY tok now ≠ Return uid) →
  token_subject sign SECRET_KEY tok now = Raise credentials_exception.
Proof.
  intros H. destruct (token_subject_cases tok now) as [[uid Hu]|]; [|done].
  by destruct (H uid).
Qed.

Lemma create_access_token_claims (data : gmap string json) (utcnow : Z) :
  create_access_token sign SECRET_KEY data utcnow
  = jwt.Compact
      {| jwt.alg := ALGORITHM;
         jwt.claims := <["exp" := JInt (utcnow + 1800)]> data;
         jwt.signature :=
           sign ALGORITHM SECRET_KEY
             (ALGORITHM, <["exp" := JInt (utcnow + 1800)]> data) |}.
Proof. reflexivity. Qed.

(** The claims of a token the application issues: a subject and the
    expiry. *)
Lemma validate_claims_issued (sub : json) (utcnow now : Z) :
  jwt.validate_claims (<["exp" := JInt (utcnow + 1800)]> {[ "sub" := sub ]})
    now
  = if utcnow + 1800 <=? now
    then Raise (PyJWTError "ExpiredSignatureError")
    else match sub with
         | JInt _ => Raise (PyJWTError "InvalidSubjectError")
         | JStr _ => Return tt
         end.
Proof.
  unfold jwt.validate_claims, jwt.validate_time.
  rewrite lookup_insert_eq.
  rewrite !lookup_insert_ne, !lookup_singleton_ne by done.
  rewrite lookup_singleton_eq. simpl.
  destruct (utcnow + 1800 <=? now); simpl; [done|]. by destruct sub.
Qed.

Lemma decode_issued (sub : json) (utcnow now : Z) :
  jwt.decode sign
    (create_access_token sign SECRET_KEY {[ "sub" := sub ]} utcnow)
    SECRET_KEY [ALGORITHM] now
  = if utcnow + 1800 <=? now
    then Raise (PyJWTError "ExpiredSignatureError")
    else match sub with
         | JInt _ => Raise (PyJWTError "InvalidSubjectError")
         | JStr _ =>
             Return (<["exp" := JInt (utcnow + 1800)]> {[ "sub" := sub ]})
         end.
Proof.
  rewrite create_access_token_claims. unfold jwt.decode. simpl.
  rewrite bool_decide_eq_true_2 by done. simpl.
  rewrite validate_claims_issued.
  destruct (utcnow + 1800 <=? now); [done|]. by destruct sub.
Qed.

Lemma token_subject_issued (sub : json) (utcnow now : Z) :
  token_subject sign SECRET_KEY
    (create_access_token sign SECRET_KEY {[ "sub" := sub ]} utcnow) now
  = if utcnow + 1800 <=? now then Raise credentials_exception
    else match sub with
         | JInt _ => Raise credentials_exception
         | JStr _ => Return sub
         end.
Proof.
  unfold token_subject. rewrite decode_issued.
  destruct (utcnow + 1800 <=? now); [done|].
  destruct sub; [done|].
  rewrite lookup_insert_ne by done. by rewrite lookup_singleton_eq.
Qed.

End Tokens.

(** C1, at the tokens the application issues.  create_access_token is
    called with the id of the user, an integer, as sub.  jwt.decode
    refuses such a token at every instant: with ExpiredSignatureError once
    the 30 minutes have passed and with InvalidSubjectError before, the
    subject of a token having to be a string; so the token check of
    get_current_user raises the 401 on every token made for a user id.
    The same call with the subject written as a string gives a token that
    is accepted, with that subject, until the 30 minutes have passed. *)
Theorem issued_token_refused
    (sign : string → string → string * gmap string json → bytes)
    (SECRET_KEY : string) (uid issued : Z) :
  (∀ now,
     jwt.decode sign
       (create_access_token sign SECRET_KEY {[ "sub" := JInt uid ]} issued)
       SECRET_KEY [ALGORITHM] now
     = Raise (PyJWTError (if issued + 30 * 60 <=? now
                          then "ExpiredSignatureError"
                          else "InvalidSubjectError")))
  ∧ (∀ now,
       token_subject sign SECRET_KEY
         (create_access_token sign SECRET_KEY {[ "sub" := JInt uid ]} issued)
         now
       = Raise credentials_exception)
  ∧ (∀ s now, now < issued + 30 * 60 →
       token_subject sign SECRET_KEY
         (create_access_token sign SECRET_KEY {[ "sub" := JStr s ]} issued)
         now
       = Return (JStr s)).
Proof.
  split; [|split].
  - intros now. rewrite decode_issued.
    change (30 * 60) with 1800. by destruct (issued + 1800 <=? now).
  - intros now. rewrite token_subject_issued.
    by destruct (issued + 1800 <=? now).
  - intros s now Hnow. rewrite token_subject_issued.
    by rewrite (proj2 (Z.leb_gt (issued + 1800) now)) by lia.
Qed.

(** ** The authentication dependency *)

Lemma HTTPBearer_raises (authorization : option (string * jwt.token)) (e : exn) :
  fastapi.HTTPBearer authorization = Raise e →
  ∃ detail, e = HTTPException 401 detail.
Proof.
  unfold fastapi.HTTPBearer.
  destruct authorization as [[sch param]|]; repeat case_match;
    intros [= <-]; eauto.
Qed.

Section Authentication.

Variable sign : string → string → string * gmap string json → bytes.
Variable SECRET_KEY : string.

Lemma Depends_get_current_user_unauthorized {A : Type}
    (authorization : option (string * jwt.token)) (now : Z)
    (endpoint : user_row → handler A) (db : database) :
  ¬ carries_valid_bearer_token sign SECRET_KEY authorization now →
  ∃ detail,
    Depends_get_current_user sign SECRET_KEY authorization now endpoint db
    = (Raise (HTTPException 401 detail), db)
    ∧ ∀ B (other : user_row → handler B),
        Depends_get_current_user sign SECRET_KEY authorization now other db
        = (Raise (HTTPException 401 detail), db).
Proof.
  intros Hno. run_handler.
  destruct (fastapi.HTTPBearer authorization) as [creds|e] eqn:Hb.
  - rewrite (token_subject_rejects sign SECRET_KEY (credentials creds) now).
    + eexists. split; [reflexivity|]. intros B other. reflexivity.
    + intros uid Hu. apply Hno. by exists creds, uid.
  - destruct (HTTPBearer_raises _ _ Hb) as [detail ->].
    exists detail. split; [reflexivity|]. intros B other. reflexivity.
Qed.

End Authentication.

(** C2. A request to POST /api/movies whose Authorization header is
    absent, or carries no valid bearer token, is answered with status 401;
    the answer is the same whatever endpoint stands behind the dependency,
    so the handler has not run, and the database is left as it was: no
    movie row is stored. *)
Theorem post_movies_without_token_rejected
    (sign : string → string → string * gmap string json → bytes)
    (SECRET_KEY : string) (authorization : option (string * jwt.token))
    (now : Z) (db : database) :
  authorization = None
  ∨ ¬ carries_valid_bearer_token sign SECRET_KEY authorization now →
  ∃ detail,
    (∀ A (endpoint : user_row → handler A),
       Depends_get_current_user sign SECRET_KEY authorization now endpoint db
       = (Raise (HTTPException 401 detail), db))
    ∧ (∀ movie now_insert,
         post_api_movies sign SECRET_KEY authorization movie now now_insert db
         = (Raise (HTTPException 401 detail), db)).
Proof.
  intros H.
  assert (Hno : ¬ carries_valid_bearer_token sign SECRET_KEY authorization now).
  { destruct H as [->|H]; [|done]. by intros (creds & uid & [=] & _). }
  destruct (Depends_get_current_user_unauthorized sign SECRET_KEY
              authorization now (λ _, mret tt) db Hno) as (detail & _ & Hall).
  exists detail. split; [exact Hall|].
  intros movie now_insert. apply Hall.
Qed.

Lemma post_movies_without_token_rejected_witness :
  ∃ detail,
    (∀ A (endpoint : user_row → handler A),
       Depends_get_current_user transparent_sign "k" None 1000 endpoint
         sample_db
       = (Raise (HTTPException 401 detail), sample_db))
    ∧ (∀ movie now_insert,
         post_api_movies transparent_sign "k" None movie 1000 now_insert
           sample_db
         = (Raise (HTTPException 401 detail), sample_db)).
Proof.
  exact (post_movies_without_token_rejected transparent_sign "k" None 1000
           sample_db (or_introl eq_refl)).
Defined.


(** ** Registration *)

Lemma find_is_Some {A : Type} (f : A → bool) (l : list A) (x : A) :
  x ∈ l → f x = true → is_Some (find f l).
Proof.
  intros Hin Hf. destruct (find f l) as [y|] eqn:Hfind; [by eexists|].
  apply list_elem_of_In in Hin.
  rewrite (find_none f l Hfind x Hin) in Hf. discriminate.
Qed.

(** C6. A registration whose email is the email of a stored user raises
    the 400 "Email already registered", whatever the username, the
    password, the salt and the clock, and leaves the database as it was:
    no user row is inserted. *)
Theorem register_existing_email_conflict
    (kdf : bytes → bytes → bytes)
    (sign : string → string → string * gmap string json → bytes)
    (SECRET_KEY : string) (user : UserCreate) (salt : bytes)
    (utcnow_row utcnow_token : Z) (db : database) :
  (∃ u, u ∈ users db ∧ user_email u = email user) →
  register kdf sign SECRET_KEY user salt utcnow_row utcnow_token db
  = (Raise (HTTPException 400 "Email already registered"), db).
Proof.
  intros (u & Hin & Hemail).
  unfold register, Database.fetchrow_user_id_by_email, mbind, handler_bind.
  destruct (find_is_Some (λ r, bool_decide (user_email r = email user))
              (users db) u Hin) as [r ->]; [|done].
  by apply bool_decide_eq_true.
Qed.

Lemma register_existing_email_conflict_witness :
  register transparent_kdf transparent_sign "k"
    {| email := "a@x.com"; username := "mallory"; password := "hunter22" |}
    sample_salt 500 501 sample_db
  = (Raise (HTTPException 400 "Email already registered"), sample_db).
Proof.
  apply register_existing_email_conflict.
  exists alice. split; [apply list_elem_of_here|reflexivity].
Defined.

(** ** Movies: one record *)

Lemma find_movie_None (id : Z) (ms : list movie_row) :
  find (λ m, bool_decide (movie_id m = id)) ms = None
  ↔ ∀ m, m ∈ ms → movie_id m ≠ id.
Proof.
  split.
  - intros Hfind m Hin Hid. apply list_elem_of_In in Hin.
    pose proof (find_none _ _ Hfind m Hin) as Hf. simpl in Hf.
    by rewrite bool_decide_eq_true_2 in Hf.
  - intros Hall. destruct (find _ ms) as [m|] eqn:Hfind; [|done].
    apply find_some in Hfind as [Hin Hid].
    apply bool_decide_eq_true in Hid. apply list_elem_of_In in Hin.
    by destruct (Hall m Hin).
Qed.

Lemma find_map_add_view (id : Z) (ms : list movie_row) :
  find (λ m, bool_decide (movie_id m = id))
       (map (λ m, if bool_decide (movie_id m = id) then add_view m else m) ms)
  = add_view <$> find (λ m, bool_decide (movie_id m = id)) ms.
Proof.
  induction ms as [|m ms IH]; [done|]. simpl.
  destruct (bool_decide (movie_id m = id)) eqn:Hm; simpl.
  - by rewrite Hm.
  - by rewrite Hm, IH.
Qed.

Lemma add_view_one_more (m : movie_row) : one_more_view m (add_view m).
Proof. by repeat split. Qed.

Lemma in_int32_spec (z : Z) :
  Database.in_int32 z = true ↔ - 2 ^ 31 ≤ z < 2 ^ 31.
Proof. unfold Database.in_int32. rewrite andb_true_iff. lia. Qed.

Lemma in_int32_wide (z : Z) :
  z < - 2 ^ 63 ∨ 2 ^ 63 ≤ z → Database.in_int32 z = false.
Proof.
  intros Hz. apply not_true_is_false. rewrite in_int32_spec. lia.
Qed.

(** C7, as the code has it.  For an id in the 32-bit range, get_movie
    raises the 404 when no movie row has the id, and then the database,
    every view counter with it, is as before; otherwise it returns a
    stored row with that id, and afterwards the movies table has the same
    rows in the same places, except that a row with that id has
    views_count one higher and nothing else changed; the users table is
    untouched.  An id out of the 64-bit range is refused by the storage
    layer, with the database as before: no 404 is raised for it. *)
Theorem get_movie_counts_one_view (id : Z) (db : database) :
  (- 2 ^ 31 ≤ id < 2 ^ 31 →
   ((∀ m, m ∈ movies db → movie_id m ≠ id) →
    get_movie id db
    = (Raise (HTTPException 404 "Movie not found"), db))
   ∧ (∀ m, m ∈ movies db → movie_id m = id →
      ∃ r db',
        get_movie id db = (Return r, db')
        ∧ r ∈ movies db ∧ movie_id r = id
        ∧ users db' = users db
        ∧ length (movies db') = length (movies db)
        ∧ ∀ i x, movies db !! i = Some x →
            ∃ x', movies db' !! i = Some x'
                  ∧ (movie_id x = id → one_more_view x x')
                  ∧ (movie_id x ≠ id → x' = x)))
  ∧ (id < - 2 ^ 63 ∨ 2 ^ 63 ≤ id →
     ∃ msg, get_movie id db = (Raise (PostgresError msg), db)).
Proof.
  unfold get_movie, Database.fetchrow_movie, Database.execute_add_view,
    mbind, handler_bind, mret, handler_ret, raise.
  split.
  - intros Hid. rewrite (proj2 (in_int32_spec id) Hid). simpl. split.
    + intros Hnone. apply find_movie_None in Hnone. by rewrite Hnone.
    + intros m Hin Hm.
      destruct (find_is_Some (λ r, bool_decide (movie_id r = id))
                  (movies db) m Hin) as [r Hr];
        [by apply bool_decide_eq_true|].
      rewrite Hr. eexists _, _. split; [reflexivity|].
      apply find_some in Hr as [Hrin Hrid].
      apply bool_decide_eq_true in Hrid. apply list_elem_of_In in Hrin.
      simpl. split; [done|]. split; [done|]. split; [done|].
      split; [by rewrite length_map|].
      intros i x Hx. rewrite list_lookup_fmap, Hx. simpl.
      eexists. split; [reflexivity|].
      case_bool_decide as Hx_id; split; intros Hcase.
      * apply add_view_one_more.
      * by destruct Hcase.
      * by destruct Hx_id.
      * reflexivity.
  - intros Hwide. rewrite (in_int32_wide id Hwide). simpl. by eexists.
Qed.

Lemma get_movie_counts_one_view_witness :
  get_movie 999 sample_db
  = (Raise (HTTPException 404 "Movie not found"), sample_db)
  ∧ (∃ r db',
       get_movie 1 sample_db = (Return r, db')
       ∧ movie_id r = 1
       ∧ (∃ x', movies db' !! 0%nat = Some x'
                ∧ one_more_view (sample_movie 1 "Drama" 200 5) x')
       ∧ movies db' !! 1%nat = Some (sample_movie 2 "Crime" 300 0))
  ∧ ∃ msg, get_movie (2 ^ 63) sample_db = (Raise (PostgresError msg), sample_db).
Proof.
  destruct (get_movie_counts_one_view 999 sample_db) as [H999 _].
  destruct H999 as [Habsent _]; [lia|].
  destruct (get_movie_counts_one_view 1 sample_db) as [H1 _].
  destruct H1 as [_ Hpresent]; [lia|].
  destruct (get_movie_counts_one_view (2 ^ 63) sample_db) as [_ Hwide].
  split; [|split].
  - apply Habsent. simpl. intros m. rewrite !elem_of_cons, elem_of_nil.
    intros [->|[->|[->|[]]]]; discriminate.
  - destruct (Hpresent (sample_movie 1 "Drama" 200 5)
                (list_elem_of_here _ _) eq_refl)
      as (r & db' & Hrun & _ & Hid & _ & _ & Hrows).
    exists r, db'. split; [exact Hrun|]. split; [exact Hid|].
    split.
    + destruct (Hrows 0%nat _ eq_refl) as (x' & Hx' & Hsame & _).
      exists x'. split; [exact Hx'|]. by apply Hsame.
    + destruct (Hrows 1%nat _ eq_refl) as (x' & Hx' & _ & Hother).
      rewrite Hx'. f_equal. by apply Hother.
  - apply Hwide. right. lia.
Defined.

(** C7 as stated fails: no movie row has the id 2^63, and get_movie does
    not raise the 404 for it; the storage layer refuses the parameter. *)
Lemma get_movie_refuses_wide_id :
  (∀ m, m ∈ movies sample_db → movie_id m ≠ 2 ^ 63)
  ∧ get_movie (2 ^ 63) sample_db
    = (Raise (PostgresError "invalid input for query argument $1"), sample_db)
  ∧ ¬ (∀ id db,
         (∀ m, m ∈ movies db → movie_id m ≠ id) →
         get_movie id db
         = (Raise (HTTPException 404 "Movie not found"), db)).
Proof.
  assert (Habsent : ∀ m, m ∈ movies sample_db → movie_id m ≠ 2 ^ 63).
  { simpl. intros m. rewrite !elem_of_cons, elem_of_nil.
    intros [->|[->|[->|[]]]]; discriminate. }
  assert (H0 : get_movie (2 ^ 63) sample_db
               = (Raise (PostgresError "invalid input for query argument $1"),
                  sample_db)).
  { reflexivity. }
  split; [exact Habsent|]. split; [exact H0|].
  intros H. specialize (H (2 ^ 63) sample_db Habsent).
  rewrite H0 in H. discriminate H.
Qed.

(** C10. The record a successful get_movie returns is the row as it was
    read before the update: it is what a read of that id gave before the
    call, and a read of the same id right after the call gives that record
    with one more view and nothing else changed; so the response is one
    view behind the counter the call leaves in the table. *)
Theorem get_movie_returns_count_before_increment
    (id : Z) (db db' : database) (r : movie_row) :
  get_movie id db = (Return r, db') →
  Database.fetchrow_movie id db = (Return (Some r), db)
  ∧ ∃ r', Database.fetchrow_movie id db' = (Return (Some r'), db')
          ∧ one_more_view r r'
          ∧ movie_views_count r + 1 = movie_views_count r'.
Proof.
  unfold get_movie, Database.fetchrow_movie, Database.execute_add_view,
    mbind, handler_bind, mret, handler_ret, raise.
  destruct (Database.in_int32 id); simpl; [|discriminate].
  destruct (find _ (movies db)) as [m|] eqn:Hfind; [|discriminate].
  intros [= -> <-]. split; [done|]. simpl.
  rewrite find_map_add_view, Hfind. simpl.
  eexists. split; [reflexivity|]. split; [apply add_view_one_more|done].
Qed.

Lemma get_movie_returns_count_before_increment_witness :
  Database.fetchrow_movie 1 sample_db
  = (Return (Some (sample_movie 1 "Drama" 200 5)), sample_db)
  ∧ ∃ r', Database.fetchrow_movie 1 (snd (get_movie 1 sample_db))
          = (Return (Some r'), snd (get_movie 1 sample_db))
          ∧ one_more_view (sample_movie 1 "Drama" 200 5) r'
          ∧ movie_views_count (sample_movie 1 "Drama" 200 5) + 1
            = movie_views_count r'.
Proof.
  exact (get_movie_returns_count_before_increment 1 sample_db
           (snd (get_movie 1 sample_db)) (sample_movie 1 "Drama" 200 5)
           eq_refl).
Defined.

(** ** Movies: the list *)

#[global] Instance newer_first_total : Total Database.newer_first.
Proof. intros a b. unfold Database.newer_first. lia. Qed.

#[global] Instance newer_first_trans : Transitive Database.newer_first.
Proof. intros a b c. unfold Database.newer_first. lia. Qed.

Lemma in_int64_spec (z : Z) :
  Database.in_int64 z = true ↔ - 2 ^ 63 ≤ z < 2 ^ 63.
Proof. unfold Database.in_int64. rewrite andb_true_iff. lia. Qed.

Lemma StronglySorted_take_drop {A : Type} (R : relation A) (l : list A)
    (n k : nat) :
  StronglySorted R l → StronglySorted R (take n (drop k l)).
Proof.
  intros Hl. rewrite <- (take_drop k l) in Hl.
  apply StronglySorted_app_1_r in Hl.
  rewrite <- (take_drop n (drop k l)) in Hl.
  by apply StronglySorted_app_1_l in Hl.
Qed.

(** C8, as the code has it.  get_movies checks neither skip nor limit
    itself.  The query is refused by the storage layer when skip or limit
    is negative or does not fit a 64-bit parameter, and runs otherwise,
    limit = 0 included.  When it runs, the database is unchanged and the
    answer is the window of [limit] rows after the first [skip] rows of a
    list that holds exactly the stored rows whose genre is the one asked
    for (all rows when none is asked for) and is ordered by creation time,
    newest first. *)
Theorem get_movies_page (skip limit : Z) (g : option string) (db : database) :
  (skip < 0 ∨ limit < 0 ∨ 2 ^ 63 ≤ skip ∨ 2 ^ 63 ≤ limit →
   ∃ msg, get_movies skip limit g db = (Raise (PostgresError msg), db))
  ∧ (0 ≤ skip < 2 ^ 63 → 0 ≤ limit < 2 ^ 63 →
     ∃ ordered rows,
       get_movies skip limit g db = (Return rows, db)
       ∧ rows = take (Z.to_nat limit) (drop (Z.to_nat skip) ordered)
       ∧ ordered ≡ₚ filter (λ m, Database.genre_matches g m) (movies db)
       ∧ (∀ m, m ∈ ordered ↔
               m ∈ movies db ∧ ∀ s, g = Some s → movie_genre m = s)
       ∧ StronglySorted Database.newer_first ordered
       ∧ StronglySorted Database.newer_first rows
       ∧ (length rows ≤ Z.to_nat limit)%nat
       ∧ ∀ m, m ∈ rows → m ∈ ordered).
Proof.
  unfold get_movies, Database.fetch_movies, mbind, handler_bind, mret,
    handler_ret.
  split.
  - intros Hbad.
    destruct (Database.in_int64 limit && Database.in_int64 skip) eqn:Hr; simpl;
      [|by eexists].
    apply andb_prop in Hr as [Hl Hs].
    apply in_int64_spec in Hl. apply in_int64_spec in Hs.
    destruct (skip <? 0) eqn:Hs0; [by eexists|].
    destruct (limit <? 0) eqn:Hl0; [by eexists|].
    apply Z.ltb_ge in Hs0. apply Z.ltb_ge in Hl0. lia.
  - intros Hs Hl.
    rewrite (proj2 (in_int64_spec limit)), (proj2 (in_int64_spec skip)) by lia.
    simpl.
    rewrite (proj2 (Z.ltb_ge skip 0)), (proj2 (Z.ltb_ge limit 0)) by lia.
    eexists _, _. split; [reflexivity|]. split; [reflexivity|].
    split; [apply merge_sort_Permutation|].
    split.
    { intros m. rewrite merge_sort_Permutation, list_elem_of_filter.
      unfold Database.genre_matches. destruct g as [s|].
      - rewrite bool_decide_spec. split.
        + intros [Hg Hin]. split; [done|]. by intros s' [= <-].
        + intros [Hin Hg]. split; [by apply Hg|done].
      - split; [intros [_ Hin]; by split|intros [Hin _]; by split]. }
    split; [apply (StronglySorted_merge_sort _)|].
    split; [apply StronglySorted_take_drop, (StronglySorted_merge_sort _)|].
    split; [rewrite length_take; lia|].
    intros m Hm. by apply subseteq_take, subseteq_drop in Hm.
Qed.

Lemma get_movies_page_witness :
  ∃ ordered rows,
    get_movies 1 1 (Some "Drama") sample_db = (Return rows, sample_db)
    ∧ rows = take 1 (drop 1 ordered)
    ∧ ordered ≡ₚ filter (λ m, Database.genre_matches (Some "Drama") m)
                   (movies sample_db)
    ∧ StronglySorted Database.newer_first rows.
Proof.
  destruct (proj2 (get_movies_page 1 1 (Some "Drama") sample_db))
    as (ordered & rows & Hrun & Hrows & Hperm & _ & _ & Hsorted & _);
    [lia|lia|].
  exists ordered, rows.
  split; [exact Hrun|split; [exact Hrows|split; [exact Hperm|exact Hsorted]]].
Defined.

Example get_movies_drama :
  get_movies 0 100 (Some "Drama") sample_db
  = (Return [sample_movie 3 "Drama" 400 9; sample_movie 1 "Drama" 200 5],
     sample_db).
Proof. vm_compute. reflexivity. Qed.

Example get_movies_second_page :
  get_movies 1 1 None sample_db
  = (Return [sample_movie 2 "Crime" 300 0], sample_db).
Proof. vm_compute. reflexivity. Qed.

Example get_movies_negative_skip :
  get_movies (-1) 10 None sample_db
  = (Raise (PostgresError "OFFSET must not be negative"), sample_db).
Proof. vm_compute. reflexivity. Qed.

(** C8 as stated fails: the request skip = 0, limit = 0 is accepted and
    answered with the empty list, so the accepted limits are not only the
    positive ones. *)
Lemma get_movies_accepts_limit_zero :
  get_movies 0 0 None sample_db = (Return [], sample_db)
  ∧ ¬ (∀ skip limit g db rows db',
         get_movies skip limit g db = (Return rows, db') →
         0 ≤ skip ∧ 0 < limit).
Proof.
  assert (H0 : get_movies 0 0 None sample_db = (Return [], sample_db)).
  { vm_compute. reflexivity. }
  split; [exact H0|].
  intros H. apply H in H0. lia.
Qed.

(** ** Movies: creation *)

Lemma create_movie_runs (movie : MovieCreate) (current_user : user_row)
    (now : Z) (db : database) :
  - 2 ^ 31 ≤ duration movie < 2 ^ 31 →
  - 2 ^ 31 ≤ user_id current_user < 2 ^ 31 →
  create_movie movie current_user now db
  = (Return None,
     set_movies
       (movies db ++
        [ {| movie_id := movies_id_seq db; movie_title := title movie;
             movie_genre := genre movie; movie_duration := duration movie;
             movie_rating := rating movie;
             movie_description := description movie;
             movie_poster_url := poster_url movie;
             movie_is_new := is_new movie; movie_created_at := now;
             movie_views_count := 0;
             movie_user_id := user_id current_user |} ])
       (movies_id_seq db + 1) db).
Proof.
  intros Hd Hu.
  unfold create_movie, Database.insert_movie, mbind, handler_bind, mret,
    handler_ret.
  by rewrite (proj2 (in_int32_spec _) Hd), (proj2 (in_int32_spec _) Hu).
Qed.

(** What a call of the endpoint leaves behind: the database as it was, or
    with one row appended. *)
Lemma create_movie_outcome (movie : MovieCreate) (current_user : user_row)
    (now : Z) (db : database) :
  snd (create_movie movie current_user now db) = db
  ∨ ∃ row,
      snd (create_movie movie current_user now db)
      = set_movies (movies db ++ [row]) (movies_id_seq db + 1) db.
Proof.
  unfold create_movie, Database.insert_movie, mbind, handler_bind, mret,
    handler_ret.
  destruct (negb (Database.in_int32 (duration movie))); [by left|].
  destruct (negb (Database.in_int32 (user_id current_user))); [by left|].
  right. by eexists.
Qed.

Lemma create_movie_response_database (movie : MovieCreate)
    (current_user : user_row) (now : Z) (db : database) :
  snd (create_movie_response movie current_user now db)
  = snd (create_movie movie current_user now db).
Proof.
  unfold create_movie_response, mbind, handler_bind, lift.
  destruct (create_movie movie current_user now db) as [[content|e] db'];
    reflexivity.
Qed.

(** C9, at a request of the user alice.  The endpoint stores the row,
    with her id as user_id and the clock reading as created_at, and then
    ends without a return statement: the value of the call is None, which
    the response model of the route refuses, so the route answers with no
    record.  The same holds for every request: the call never returns a
    record, and the route never answers with one. *)
Theorem create_movie_answers_no_record :
  create_movie sample_request alice 1501 sample_db
  = (Return None,
     set_movies
       (movies sample_db ++
        [ {| movie_id := 4; movie_title := "A title"; movie_genre := "Drama";
             movie_duration := 95; movie_rating := 3.5%float;
             movie_description := "A description";
             movie_poster_url := "poster.png"; movie_is_new := true;
             movie_created_at := 1501; movie_views_count := 0;
             movie_user_id := 1 |} ])
       5 sample_db)
  ∧ fst (create_movie_response sample_request alice 1501 sample_db)
    = Raise ResponseValidationError
  ∧ (∀ movie current_user now db row,
       fst (create_movie movie current_user now db) ≠ Return (Some row))
  ∧ (∀ movie current_user now db answer,
       fst (create_movie_response movie current_user now db) ≠ Return answer).
Proof.
  split; [reflexivity|]. split; [reflexivity|].
  assert (Hnone : ∀ movie current_user now db row,
            fst (create_movie movie current_user now db) ≠ Return (Some row)).
  { intros movie current_user now db row.
    unfold create_movie, Database.insert_movie, mbind, handler_bind, mret,
      handler_ret.
    destruct (negb (Database.in_int32 (duration movie))); [discriminate|].
    destruct (negb (Database.in_int32 (user_id current_user)));
      discriminate. }
  split; [exact Hnone|].
  intros movie current_user now db answer.
  specialize (Hnone movie current_user now db).
  unfold create_movie_response, mbind, handler_bind, lift.
  destruct (create_movie movie current_user now db) as [[[row|]|e] db'];
    simpl in *; try discriminate.
  by destruct (Hnone row).
Qed.

(** ** Further properties *)

Lemma find_app_None {A : Type} (f : A → bool) (l : list A) (x : A) :
  find f l = None → find f (l ++ [x]) = if f x then Some x else None.
Proof.
  induction l as [|y l IH]; simpl; [done|].
  destruct (f y); [discriminate|]. exact IH.
Qed.

Lemma find_None_intro {A : Type} (f : A → bool) (l : list A) :
  (∀ x, x ∈ l → f x = false) → find f l = None.
Proof.
  intros Hall. destruct (find f l) as [x|] eqn:Hfind; [|done].
  apply find_some in Hfind as [Hin Hx]. apply list_elem_of_In in Hin.
  rewrite (Hall x Hin) in Hx. discriminate.
Qed.

(** X1. Registration with an email that is not stored yet and a password
    of at most 72 bytes, and a login with the same email and password
    afterwards.  Registration appends one active user row, with the id
    the storage assigns, the email and the username of the request and a
    hash that verifies the password, and returns a token made for that
    id.  The login then succeeds, leaves the database as it is and gives
    a token made for the same id. *)
Theorem register_then_login_same_subject
    (kdf : bytes → bytes → bytes)
    (sign : string → string → string * gmap string json → bytes)
    (SECRET_KEY : string) (user : UserCreate) (salt : bytes)
    (utcnow_row utcnow_token utcnow_login : Z) (db : database) :
  kdf_digest kdf →
  bcrypt.is_gensalt salt →
  (length (encode_utf8 (password user)) ≤ 72)%nat →
  (∀ u, u ∈ users db → user_email u ≠ email user) →
  ∃ h db',
    register kdf sign SECRET_KEY user salt utcnow_row utcnow_token db
    = (Return {| access_token :=
                   create_access_token sign SECRET_KEY
                     {[ "sub" := JInt (users_id_seq db) ]} utcnow_token;
                 token_type := "bearer" |}, db')
    ∧ users db'
      = users db ++
        [ {| user_id := users_id_seq db; user_email := email user;
             user_username := username user; user_password_hash := h;
             user_created_at := utcnow_row; user_is_active := true |} ]
    ∧ movies db' = movies db
    ∧ verify_password kdf (password user) h = Return true
    ∧ login kdf sign SECRET_KEY
        {| login_email := email user; login_password := password user |}
        utcnow_login db'
      = (Return {| access_token :=
                     create_access_token sign SECRET_KEY
                       {[ "sub" := JInt (users_id_seq db) ]} utcnow_login;
                   token_type := "bearer" |}, db').
Proof.
  intros Hk Hsalt Hlen Hfresh.
  assert (Hf1 : find (λ u, bool_decide (user_email u = email user)) (users db)
                = None).
  { apply find_None_intro. intros u Hin.
    apply bool_decide_eq_false_2. by apply Hfresh. }
  assert (Hf2 : find (λ u, bool_decide (user_email u = email user)
                           && user_is_active u) (users db) = None).
  { apply find_None_intro. intros u Hin.
    rewrite bool_decide_eq_false_2; [done|by apply Hfresh]. }
  assert (Hex : existsb (λ r, bool_decide (user_email r = email user))
                  (users db) = false).
  { apply not_true_is_false. intros Hex.
    apply existsb_exists in Hex as (u & Hin & Hu).
    apply bool_decide_eq_true in Hu. apply list_elem_of_In in Hin.
    by destruct (Hfresh u Hin). }
  assert (Hverify : verify_password kdf (password user)
                      (decode_utf8
                         (salt ++ kdf (drop 4 salt)
                                    (encode_utf8 (password user))))
                    = Return true).
  { rewrite verify_password_hashed by done.
    by rewrite bool_decide_eq_true_2. }
  eexists _, _. split; [|split; [|split; [|split]]].
  - unfold register, Database.fetchrow_user_id_by_email, Database.insert_user,
      mbind, handler_bind, mret, handler_ret, lift.
    rewrite Hf1. simpl.
    rewrite (hash_password_gensalt kdf salt (password user) Hsalt Hlen).
    rewrite Hex. reflexivity.
  - reflexivity.
  - reflexivity.
  - exact Hverify.
  - unfold login, Database.fetchrow_login, mbind, handler_bind, mret,
      handler_ret, lift. simpl.
    rewrite (find_app_None _ _ _ Hf2). simpl.
    rewrite bool_decide_eq_true_2 by done. simpl.
    rewrite Hverify. reflexivity.
Qed.

Lemma register_then_login_same_subject_witness :
  ∃ h db',
    register padded_kdf transparent_sign "k"
      {| email := "c@x.com"; username := "carol"; password := "secret3" |}
      sample_salt 500 501 sample_db
    = (Return {| access_token :=
                   create_access_token transparent_sign "k"
                     {[ "sub" := JInt 3 ]} 501;
                 token_type := "bearer" |}, db')
    ∧ verify_password padded_kdf "secret3" h = Return true
    ∧ login padded_kdf transparent_sign "k"
        {| login_email := "c@x.com"; login_password := "secret3" |} 600 db'
      = (Return {| access_token :=
                     create_access_token transparent_sign "k"
                       {[ "sub" := JInt 3 ]} 600;
                 token_type := "bearer" |}, db').
Proof.
  destruct (register_then_login_same_subject padded_kdf transparent_sign
              "k"
              {| email := "c@x.com"; username := "carol"; password := "secret3" |}
              sample_salt 500 501 600 sample_db padded_kdf_digest
              sample_salt_is_gensalt)
    as (h & db' & Hreg & _ & _ & Hverify & Hlogin).
  - simpl. lia.
  - simpl. intros u. rewrite !elem_of_cons, elem_of_nil.
    intros [->|[->|[]]]; discriminate.
  - exists h, db'. split; [exact Hreg|split; [exact Hverify|exact Hlogin]].
Defined.

(** X2. A login is refused with the 401 when no active user has the
    email, and when the password does not verify against the stored hash;
    the database is left as it was. *)
Theorem login_refused
    (kdf : bytes → bytes → bytes)
    (sign : string → string → string * gmap string json → bytes)
    (SECRET_KEY : string) (request : LoginRequest) (utcnow : Z)
    (db : database) :
  ((∀ u, u ∈ users db → user_email u = login_email request →
         user_is_active u = false) →
   login kdf sign SECRET_KEY request utcnow db
   = (Raise (HTTPException 401 "Incorrect email or password"), db))
  ∧ (∀ uid h,
       fst (Database.fetchrow_login (login_email request) db)
       = Return (Some (uid, h)) →
       verify_password kdf (login_password request) h = Return false →
       login kdf sign SECRET_KEY request utcnow db
       = (Raise (HTTPException 401 "Incorrect email or password"), db)).
Proof.
  unfold login, Database.fetchrow_login, mbind, handler_bind, mret,
    handler_ret, lift, raise.
  split.
  - intros Hnone.
    destruct (find _ (users db)) as [u|] eqn:Hfind; [|done].
    apply find_some in Hfind as [Hin Hu].
    apply andb_prop in Hu as [He Ha]. apply bool_decide_eq_true in He.
    apply list_elem_of_In in Hin. rewrite (Hnone u Hin He) in Ha. done.
  - intros uid h. simpl.
    destruct (find _ (users db)) as [u|]; simpl; [|discriminate].
    intros [= -> ->] Hv. by rewrite Hv.
Qed.

Lemma add_view_times (n : nat) (m : movie_row) :
  movie_views_count (Nat.iter n add_view m) = movie_views_count m + Z.of_nat n
  ∧ movie_id (Nat.iter n add_view m) = movie_id m.
Proof.
  induction n as [|n [IHv IHi]]; simpl.
  - split; [lia|done].
  - rewrite IHv, IHi. split; [lia|done].
Qed.

(** X3. Fetching the same stored movie [n] times in a row leaves its view
    counter [n] higher than it was. *)
Theorem get_movie_times_counts (n : nat) (id : Z) (db : database)
    (m : movie_row) :
  fst (Database.fetchrow_movie id db) = Return (Some m) →
  ∃ m',
    fst (Database.fetchrow_movie id (get_movie_times n id db))
    = Return (Some m')
    ∧ movie_views_count m' = movie_views_count m + Z.of_nat n
    ∧ movie_id m' = movie_id m.
Proof.
  revert db m. induction n as [|n IH]; intros db m Hm.
  - exists m. simpl. split; [done|]. split; [lia|done].
  - destruct (IH (snd (get_movie id db)) (add_view m)) as (m' & Hm' & Hv & Hi).
    { revert Hm.
      unfold get_movie, Database.fetchrow_movie, Database.execute_add_view,
        mbind, handler_bind, mret, handler_ret.
      destruct (Database.in_int32 id); simpl; [|discriminate].
      intros [= Hm]. rewrite Hm. simpl.
      by rewrite find_map_add_view, Hm. }
    exists m'. simpl. split; [exact Hm'|].
    rewrite Hv, Hi. simpl. split; [lia|done].
Qed.

Lemma get_movie_times_counts_witness :
  ∃ m',
    fst (Database.fetchrow_movie 1 (get_movie_times 3 1 sample_db))
    = Return (Some m')
    ∧ movie_views_count m' = 5 + 3.
Proof.
  destruct (get_movie_times_counts 3 1 sample_db
              (sample_movie 1 "Drama" 200 5) eq_refl) as (m' & Hm' & Hv & _).
  exists m'. split; [exact Hm'|exact Hv].
Defined.

Lemma login_refused_witness :
  login transparent_kdf transparent_sign "k"
    {| login_email := "b@x.com"; login_password := "secret2" |} 600 sample_db
  = (Raise (HTTPException 401 "Incorrect email or password"), sample_db)
  ∧ login transparent_kdf transparent_sign "k"
      {| login_email := "a@x.com"; login_password := "guess" |} 600 sample_db
    = (Raise (HTTPException 401 "Incorrect email or password"), sample_db).
Proof.
  split.
  - apply (proj1 (login_refused transparent_kdf transparent_sign "k"
                    {| login_email := "b@x.com"; login_password := "secret2" |}
                    600 sample_db)).
    simpl. intros u. rewrite !elem_of_cons, elem_of_nil.
    intros [->|[->|[]]]; [discriminate|done].
  - apply (proj2 (login_refused transparent_kdf transparent_sign "k"
                    {| login_email := "a@x.com"; login_password := "guess" |}
                    600 sample_db) 1 (user_password_hash alice));
      reflexivity.
Defined.

(** ** Further properties: tokens and credentials *)

Lemma get_current_user_keeps_database
    (sign : string → string → string * gmap string json → bytes)
    (SECRET_KEY : string) (creds : HTTPAuthorizationCredentials) (now : Z)
    (db : database) :
  snd (get_current_user sign SECRET_KEY creds now db) = db.
Proof.
  run_handler. unfold Database.fetchrow_active_user.
  destruct (token_subject sign SECRET_KEY (credentials creds) now)
    as [[z|s]|e]; simpl; [|done..].
  destruct (Database.in_int32 z); simpl; [|done].
  by destruct (find _ (users db)).
Qed.

(** X6. A hash made by hash_password for a password of at most 72 bytes
    starts with the salt of the call and is a hash bcrypt reads: on it
    verify_password returns a boolean for every candidate password of at
    most 72 bytes; and a call with another salt never gives the same
    hash, whatever password it hashes. *)
Theorem hash_password_salted (kdf : bytes → bytes → bytes) (salt : bytes)
    (p : string) :
  kdf_digest kdf → bcrypt.is_gensalt salt →
  (length (encode_utf8 p) ≤ 72)%nat →
  ∃ h, hash_password kdf salt p = Return h
       ∧ take 29 (encode_utf8 h) = salt
       ∧ (∀ q, (length (encode_utf8 q) ≤ 72)%nat →
            ∃ b, verify_password kdf q h = Return b)
       ∧ (∀ salt' p', bcrypt.is_gensalt salt' → salt' ≠ salt →
            hash_password kdf salt' p' ≠ Return h).
Proof.
  intros Hk Hs Hp. eexists. split; [by apply hash_password_gensalt|].
  rewrite encode_decode_utf8.
  split; [by rewrite take_app_length' by (symmetry; by apply gensalt_length)|].
  split.
  - intros q Hq. rewrite verify_password_hashed by done. by eexists.
  - intros salt' p' Hs' Hne. unfold hash_password.
    destruct (decide (length (encode_utf8 p') ≤ 72)%nat) as [Hp'|Hp'].
    + rewrite hashpw_gensalt by done. intros [= Heq]. apply Hne.
      apply (f_equal encode_utf8) in Heq. rewrite !encode_decode_utf8 in Heq.
      apply (f_equal (take 29)) in Heq.
      by rewrite !take_app_length' in Heq
        by (symmetry; by apply gensalt_length).
    + destruct (hashpw_long_password kdf (encode_utf8 p') salt')
        as [msg ->]; [lia|discriminate].
Qed.

Lemma hash_password_salted_witness :
  ∃ h, hash_password padded_kdf sample_salt "secret1" = Return h
       ∧ take 29 (encode_utf8 h) = sample_salt
       ∧ (∀ q, (length (encode_utf8 q) ≤ 72)%nat →
            ∃ b, verify_password padded_kdf q h = Return b).
Proof.
  destruct (hash_password_salted padded_kdf sample_salt "secret1"
              padded_kdf_digest sample_salt_is_gensalt)
    as (h & Hh & Hsalt & Hbool & _); [simpl; lia|].
  exists h. split; [exact Hh|split; [exact Hsalt|exact Hbool]].
Defined.

(** ** Further properties: login *)

Lemma login_keeps_database
    (kdf : bytes → bytes → bytes)
    (sign : string → string → string * gmap string json → bytes)
    (SECRET_KEY : string) (body : LoginRequest) (utcnow : Z)
    (db : database) :
  snd (login kdf sign SECRET_KEY body utcnow db) = db.
Proof.
  unfold login, Database.fetchrow_login, mbind, handler_bind, mret,
    handler_ret, lift, raise. simpl.
  destruct (find _ (users db)) as [u|]; simpl; [|done].
  destruct (verify_password kdf _ _) as [[|]|e]; reflexivity.
Qed.



(** ** Further properties: what a sequence of requests keeps *)

Section Requests.

Variable kdf : bytes → bytes → bytes.
Variable sign : string → string → string * gmap string json → bytes.
Variable SECRET_KEY : string.

Lemma register_outcome (user : UserCreate) (salt : bytes)
    (utcnow_row utcnow_token : Z) (db : database) :
  snd (register kdf sign SECRET_KEY user salt utcnow_row utcnow_token db) = db
  ∨ (∀ u, u ∈ users db → user_email u ≠ email user)
    ∧ ∃ row,
        user_email row = email user
        ∧ snd (register kdf sign SECRET_KEY user salt utcnow_row utcnow_token
                 db)
          = set_users (users db ++ [row]) (users_id_seq db + 1) db.
Proof.
  unfold register, Database.fetchrow_user_id_by_email, Database.insert_user,
    mbind, handler_bind, mret, handler_ret, lift, raise. simpl.
  destruct (find _ (users db)) as [u|]; simpl; [by left|].
  destruct (hash_password kdf salt (password user)) as [h|e]; simpl;
    [|by left].
  destruct (existsb _ (users db)) eqn:Hex; simpl; [by left|].
  right. split.
  - intros u Hin Hemail. apply list_elem_of_In in Hin.
    assert (existsb (λ r, bool_decide (user_email r = email user)) (users db)
            = true) as Htrue.
    { apply existsb_exists. exists u. split; [done|].
      by apply bool_decide_eq_true. }
    congruence.
  - eexists. split; [|reflexivity]. reflexivity.
Qed.

Lemma get_movies_keeps_database (skip limit : Z) (g : option string)
    (db : database) :
  snd (get_movies skip limit g db) = db.
Proof.
  unfold get_movies, Database.fetch_movies, mbind, handler_bind, mret,
    handler_ret.
  by repeat case_match; simplify_eq.
Qed.

Lemma get_movie_outcome (id : Z) (db : database) :
  snd (get_movie id db) = db
  ∨ snd (get_movie id db)
    = set_movies
        (map (λ m, if bool_decide (movie_id m = id) then add_view m else m)
             (movies db))
        (movies_id_seq db) db.
Proof.
  unfold get_movie, Database.fetchrow_movie, Database.execute_add_view,
    mbind, handler_bind, mret, handler_ret, raise.
  destruct (Database.in_int32 id); simpl; [|by left].
  destruct (find _ (movies db)); simpl; [by right|by left].
Qed.

Lemma post_api_movies_outcome (authorization : option (string * jwt.token))
    (movie : MovieCreate) (now_verify now_insert : Z) (db : database) :
  snd (post_api_movies sign SECRET_KEY authorization movie now_verify
         now_insert db) = db
  ∨ ∃ u, snd (post_api_movies sign SECRET_KEY authorization movie now_verify
                now_insert db)
         = snd (create_movie movie u now_insert db).
Proof.
  unfold post_api_movies, Depends_get_current_user, mbind, handler_bind,
    lift at 1.
  destruct (fastapi.HTTPBearer authorization) as [creds|e]; simpl;
    [|by left].
  pose proof (get_current_user_keeps_database sign SECRET_KEY creds
                now_verify db) as Hframe.
  destruct (get_current_user sign SECRET_KEY creds now_verify db)
    as [[u|e] db']; simpl in Hframe; subst db'; [|by left].
  right. exists u. apply create_movie_response_database.
Qed.

Lemma serve_users (r : request) (db : database) :
  ∃ new,
    users (serve kdf sign SECRET_KEY r db) = users db ++ new
    ∧ (NoDup (user_email <$> users db) →
       NoDup (user_email <$> users (serve kdf sign SECRET_KEY r db))).
Proof.
  assert (Hsame : ∀ db', users db' = users db →
            ∃ new, users db' = users db ++ new
                   ∧ (NoDup (user_email <$> users db) →
                      NoDup (user_email <$> users db'))).
  { intros db' ->. exists []. by rewrite app_nil_r. }
  destruct r as [|user salt t1 t2|body t|skip limit g|id|auth movie t1 t2];
    simpl.
  - by apply Hsame.
  - destruct (register_outcome user salt t1 t2 db)
      as [->|(Hfresh & row & Hemail & ->)]; [by apply Hsame|].
    exists [row]. split; [done|]. simpl. intros Hnd.
    rewrite fmap_app. apply NoDup_app. split; [done|]. split.
    + intros e He. simpl. rewrite list_elem_of_singleton. intros ->.
      apply list_elem_of_fmap in He as (u & Hu & Hin).
      apply (Hfresh u Hin). congruence.
    + apply NoDup_singleton.
  - rewrite login_keeps_database. by apply Hsame.
  - rewrite get_movies_keeps_database. by apply Hsame.
  - destruct (get_movie_outcome id db) as [->| ->]; by apply Hsame.
  - destruct (post_api_movies_outcome auth movie t1 t2 db) as [->|[u ->]];
      [by apply Hsame|].
    destruct (create_movie_outcome movie u t2 db) as [->|[row ->]];
      by apply Hsame.
Qed.

Lemma views_grown_refl (m : movie_row) : views_grown m m.
Proof. unfold views_grown. repeat split; lia. Qed.

Lemma views_grown_trans (a b c : movie_row) :
  views_grown a b → views_grown b c → views_grown a c.
Proof.
  unfold views_grown. intros H1 H2.
  destruct H1 as (? & ? & ? & ? & ? & ? & ? & ? & ? & ? & ?).
  destruct H2 as (? & ? & ? & ? & ? & ? & ? & ? & ? & ? & ?).
  repeat split; try lia; congruence.
Qed.

Lemma serve_movies (r : request) (db : database) (i : nat) (m : movie_row) :
  movies db !! i = Some m →
  ∃ m', movies (serve kdf sign SECRET_KEY r db) !! i = Some m'
        ∧ views_grown m m'.
Proof.
  intros Hm.
  assert (Hsame : ∀ db', movies db' = movies db →
            ∃ m', movies db' !! i = Some m' ∧ views_grown m m').
  { intros db' ->. exists m. split; [done|apply views_grown_refl]. }
  destruct r as [|user salt t1 t2|body t|skip limit g|id|auth movie t1 t2];
    simpl.
  - by apply Hsame.
  - destruct (register_outcome user salt t1 t2 db)
      as [->|(_ & row & _ & ->)]; by apply Hsame.
  - rewrite login_keeps_database. by apply Hsame.
  - rewrite get_movies_keeps_database. by apply Hsame.
  - destruct (get_movie_outcome id db) as [->| ->]; [by apply Hsame|].
    simpl. rewrite list_lookup_fmap, Hm. simpl. eexists. split; [done|].
    case_bool_decide; [|apply views_grown_refl].
    unfold views_grown. simpl. repeat split; lia.
  - destruct (post_api_movies_outcome auth movie t1 t2 db) as [->|[u ->]];
      [by apply Hsame|].
    destruct (create_movie_outcome movie u t2 db) as [->|[row ->]];
      [by apply Hsame|].
    simpl. exists m. split; [|apply views_grown_refl].
    by apply lookup_app_l_Some.
Qed.

End Requests.

(** X9. No sequence of requests changes or removes a stored user: the
    users table after it is the table before it with the rows of the
    registrations appended, so a deactivated user is not reactivated and
    no password hash is replaced; and when the stored emails are pairwise
    distinct before, they are so after. *)
Theorem requests_keep_users
    (kdf : bytes → bytes → bytes)
    (sign : string → string → string * gmap string json → bytes)
    (SECRET_KEY : string) (rs : list request) (db : database) :
  ∃ new,
    users (serve_all kdf sign SECRET_KEY rs db) = users db ++ new
    ∧ (NoDup (user_email <$> users db) →
       NoDup (user_email <$> users (serve_all kdf sign SECRET_KEY rs db))).
Proof.
  revert db. induction rs as [|r rs IH]; intros db.
  - exists []. by rewrite app_nil_r.
  - destruct (serve_users kdf sign SECRET_KEY r db) as (new1 & Hu1 & Hnd1).
    destruct (IH (serve kdf sign SECRET_KEY r db)) as (new2 & Hu2 & Hnd2).
    exists (new1 ++ new2). unfold serve_all in *. simpl. split.
    + by rewrite Hu2, Hu1, app_assoc.
    + intros Hnd. by apply Hnd2, Hnd1.
Qed.

(** X10. No sequence of requests removes or moves a stored movie or
    lowers a view counter: the row at a place of the movies table is
    afterwards at the same place, with at least as many views and every
    other field as it was. *)
Theorem requests_keep_movies
    (kdf : bytes → bytes → bytes)
    (sign : string → string → string * gmap string json → bytes)
    (SECRET_KEY : string) (rs : list request) (db : database)
    (i : nat) (m : movie_row) :
  movies db !! i = Some m →
  ∃ m', movies (serve_all kdf sign SECRET_KEY rs db) !! i = Some m'
        ∧ views_grown m m'.
Proof.
  revert db m. induction rs as [|r rs IH]; intros db m Hm.
  - exists m. split; [done|apply views_grown_refl].
  - destruct (serve_movies kdf sign SECRET_KEY r db i m Hm)
      as (m1 & Hm1 & Hg1).
    destruct (IH _ _ Hm1) as (m2 & Hm2 & Hg2).
    exists m2. split; [exact Hm2|]. by eapply views_grown_trans.
Qed.

Lemma sample_emails_distinct : NoDup (user_email <$> users sample_db).
Proof. apply (bool_decide_unpack _). vm_compute. exact I. Qed.

Lemma requests_keep_users_witness :
  ∃ new,
    users (serve_all transparent_kdf transparent_sign "k"
             [POST_auth_register
                {| email := "a@x.com"; username := "mallory";
                   password := "hunter22" |} sample_salt 500 501;
              POST_auth_register
                {| email := "c@x.com"; username := "carol";
                   password := "secret3" |} sample_salt 510 511;
              POST_auth_login
                {| login_email := "c@x.com"; login_password := "secret3" |}
                520]
             sample_db)
    = users sample_db ++ new
    ∧ NoDup (user_email <$>
             users (serve_all transparent_kdf transparent_sign "k"
                      [POST_auth_register
                         {| email := "a@x.com"; username := "mallory";
                            password := "hunter22" |} sample_salt 500 501;
                       POST_auth_register
                         {| email := "c@x.com"; username := "carol";
                            password := "secret3" |} sample_salt 510 511;
                       POST_auth_login
                         {| login_email := "c@x.com";
                            login_password := "secret3" |} 520]
                      sample_db)).
Proof.
  destruct (requests_keep_users transparent_kdf transparent_sign "k"
              [POST_auth_register
                 {| email := "a@x.com"; username := "mallory";
                    password := "hunter22" |} sample_salt 500 501;
               POST_auth_register
                 {| email := "c@x.com"; username := "carol";
                    password := "secret3" |} sample_salt 510 511;
               POST_auth_login
                 {| login_email := "c@x.com"; login_password := "secret3" |}
                 520]
              sample_db) as (new & Husers & Hdistinct).
  exists new. split; [exact Husers|exact (Hdistinct sample_emails_distinct)].
Defined.

Lemma requests_keep_movies_witness :
  ∃ m',
    movies (serve_all transparent_kdf transparent_sign "k"
              [GET_movie 1;
               POST_movies alice_authorization sample_request 1500 1501;
               GET_movies 0 10 None; GET_movie 1]
              sample_db) !! 0%nat
    = Some m'
    ∧ views_grown (sample_movie 1 "Drama" 200 5) m'.
Proof.
  exact (requests_keep_movies transparent_kdf transparent_sign "k"
           [GET_movie 1;
            POST_movies alice_authorization sample_request 1500 1501;
            GET_movies 0 10 None; GET_movie 1]
           sample_db 0%nat (sample_movie 1 "Drama" 200 5) eq_refl).
Defined.

(** ** Further properties: listing *)

Lemma get_movies_runs (skip limit : Z) (g : option string) (db : database) :
  0 ≤ skip < 2 ^ 63 → 0 ≤ limit < 2 ^ 63 →
  get_movies skip limit g db
  = (Return (take (Z.to_nat limit)
               (drop (Z.to_nat skip)
                  (merge_sort Database.newer_first
                     (filter (λ m, Database.genre_matches g m) (movies db))))),
     db).
Proof.
  intros Hs Hl.
  unfold get_movies, Database.fetch_movies, mbind, handler_bind, mret,
    handler_ret.
  rewrite (proj2 (in_int64_spec limit)), (proj2 (in_int64_spec skip)) by lia.
  simpl.
  by rewrite (proj2 (Z.ltb_ge skip 0)), (proj2 (Z.ltb_ge limit 0)) by lia.
Qed.

Lemma StronglySorted_filter_list {A : Type} (R : relation A) (P : A → Prop)
    `{!∀ x, Decision (P x)} (l : list A) :
  StronglySorted R l → StronglySorted R (filter P l).
Proof.
  induction 1 as [|x l Hl IH Hx]; [constructor|].
  rewrite filter_cons. case_decide; [|done].
  constructor; [done|].
  apply Forall_forall. intros y Hy.
  apply list_elem_of_filter in Hy as [_ Hy].
  by apply (proj1 (Forall_forall _ _) Hx).
Qed.

Lemma distinct_creation_times_eq (ms : list movie_row) (a b : movie_row) :
  distinct_creation_times ms → a ∈ ms → b ∈ ms →
  movie_created_at a = movie_created_at b → a = b.
Proof.
  intros Hd Ha Hb Heq.
  apply list_elem_of_lookup in Ha as [i Hi].
  apply list_elem_of_lookup in Hb as [j Hj].
  pose proof (Hd i j a b Hi Hj Heq) as ->. congruence.
Qed.

Lemma newer_first_order_unique (ms l1 l2 : list movie_row) :
  distinct_creation_times ms → l1 ⊆ ms →
  StronglySorted Database.newer_first l1 →
  StronglySorted Database.newer_first l2 →
  l1 ≡ₚ l2 → l1 = l2.
Proof.
  intros Hd Hsub H1 H2 Hp.
  apply (StronglySorted_unique_strong Database.newer_first); try done.
  intros a b Ha Hb Hab Hba. unfold Database.newer_first in *.
  rewrite <- Hp in Hb.
  apply (distinct_creation_times_eq ms); [done|by apply Hsub..|lia].
Qed.

(** X11. When no two stored movies were created at the same instant, the
    SQL text leaves the engine no choice: for skip and limit in range,
    get_movies returns the window of every list that holds the matching
    rows newest first, and the listing for a genre is the listing of all
    movies with the other genres filtered out, in the same order. *)
Theorem get_movies_determined (skip limit : Z) (g : option string)
    (db : database) :
  distinct_creation_times (movies db) →
  0 ≤ skip < 2 ^ 63 → 0 ≤ limit < 2 ^ 63 →
  (∀ ordered,
     ordered ≡ₚ filter (λ m, Database.genre_matches g m) (movies db) →
     StronglySorted Database.newer_first ordered →
     get_movies skip limit g db
     = (Return (take (Z.to_nat limit) (drop (Z.to_nat skip) ordered)), db))
  ∧ (∀ everything,
       everything ≡ₚ movies db →
       StronglySorted Database.newer_first everything →
       get_movies skip limit g db
       = (Return (take (Z.to_nat limit)
                    (drop (Z.to_nat skip)
                       (filter (λ m, Database.genre_matches g m) everything))),
          db)).
Proof.
  intros Hd Hs Hl.
  assert (Hfirst : ∀ ordered,
            ordered ≡ₚ filter (λ m, Database.genre_matches g m) (movies db) →
            StronglySorted Database.newer_first ordered →
            get_movies skip limit g db
            = (Return (take (Z.to_nat limit) (drop (Z.to_nat skip) ordered)),
               db)).
  { intros ordered Hp Hsorted. rewrite get_movies_runs by done.
    assert (merge_sort Database.newer_first
              (filter (λ m, Database.genre_matches g m) (movies db))
            = ordered) as ->; [|done].
    apply (newer_first_order_unique (movies db)); try done.
    - intros m. rewrite merge_sort_Permutation, list_elem_of_filter. tauto.
    - apply (StronglySorted_merge_sort _).
    - by rewrite merge_sort_Permutation. }
  split; [exact Hfirst|].
  intros everything Hp Hsorted. apply Hfirst.
  - by rewrite Hp.
  - by apply StronglySorted_filter_list.
Qed.

Lemma sample_creation_times_distinct :
  distinct_creation_times (movies sample_db).
Proof.
  intros i j a b Hi Hj. simpl in Hi, Hj.
  destruct i as [|[|[|i]]]; simplify_eq/=;
    destruct j as [|[|[|j]]]; simplify_eq/=; done.
Qed.

Lemma get_movies_determined_witness :
  get_movies 0 1 (Some "Drama") sample_db
  = (Return (take (Z.to_nat 1)
               (drop (Z.to_nat 0)
                  (filter (λ m, Database.genre_matches (Some "Drama") m)
                     [sample_movie 3 "Drama" 400 9;
                      sample_movie 2 "Crime" 300 0;
                      sample_movie 1 "Drama" 200 5]))),
     sample_db).
Proof.
  apply (proj2 (get_movies_determined 0 1 (Some "Drama") sample_db
                  sample_creation_times_distinct ltac:(lia) ltac:(lia))).
  - exact (reverse_Permutation
             [sample_movie 1 "Drama" 200 5; sample_movie 2 "Crime" 300 0;
              sample_movie 3 "Drama" 400 9]).
  - repeat constructor; unfold Database.newer_first; simpl; lia.
Defined.

(** X12. Pages fit together.  For one state of the table, the page of l1
    rows after skip followed by the page of l2 rows after skip + l1 is the
    page of l1 + l2 rows after skip: paging through the listing neither
    repeats nor drops a row.  A page that starts at or past the number of
    matching rows is empty, and a first page at least that long holds
    every matching row. *)
Theorem get_movies_pages_compose (skip l1 l2 : Z) (g : option string)
    (db : database) :
  0 ≤ skip → 0 ≤ l1 → 0 ≤ l2 → skip + l1 + l2 < 2 ^ 63 →
  ∃ p1 p2,
    get_movies skip l1 g db = (Return p1, db)
    ∧ get_movies (skip + l1) l2 g db = (Return p2, db)
    ∧ get_movies skip (l1 + l2) g db = (Return (p1 ++ p2), db)
    ∧ ((length (filter (λ m, Database.genre_matches g m) (movies db))
        ≤ Z.to_nat (skip + l1))%nat → p2 = [])
    ∧ (skip = 0 →
       (length (filter (λ m, Database.genre_matches g m) (movies db))
        ≤ Z.to_nat l1)%nat →
       p1 ≡ₚ filter (λ m, Database.genre_matches g m) (movies db)).
Proof.
  intros Hs H1 H2 Hmax.
  rewrite !get_movies_runs by lia.
  set (ordered := merge_sort Database.newer_first
                    (filter (λ m, Database.genre_matches g m) (movies db))).
  assert (Hlen : length ordered
                 = length (filter (λ m, Database.genre_matches g m)
                             (movies db))).
  { apply Permutation_length, merge_sort_Permutation. }
  eexists _, _. split; [reflexivity|]. split; [reflexivity|]. split; [|split].
  - do 2 f_equal.
    rewrite !Z2Nat.inj_add by lia.
    rewrite <- take_take_drop, drop_drop. done.
  - intros Hpast. rewrite drop_ge by lia. apply take_nil.
  - intros -> Hall. change (Z.to_nat 0) with 0%nat. rewrite drop_0.
    rewrite take_ge by lia. apply merge_sort_Permutation.
Qed.

Lemma get_movies_pages_compose_witness :
  ∃ p1 p2,
    get_movies 0 1 None sample_db = (Return p1, sample_db)
    ∧ get_movies (0 + 1) 2 None sample_db = (Return p2, sample_db)
    ∧ get_movies 0 (1 + 2) None sample_db = (Return (p1 ++ p2), sample_db).
Proof.
  destruct (get_movies_pages_compose 0 1 2 None sample_db)
    as (p1 & p2 & Hp1 & Hp2 & Hp & _); [lia..|].
  exists p1, p2. split; [exact Hp1|split; [exact Hp2|exact Hp]].
Defined.

Lemma newest_stands_first (l L : list movie_row) (x : movie_row) :
  L ≡ₚ l ++ [x] →
  StronglySorted Database.newer_first L →
  (∀ m, m ∈ l → movie_created_at m < movie_created_at x) →
  ∃ T, L = x :: T.
Proof.
  intros Hp Hsorted Hnew.
  destruct L as [|h T].
  { apply Permutation_length in Hp. rewrite length_app in Hp.
    simpl in Hp. lia. }
  exists T. f_equal.
  apply StronglySorted_inv in Hsorted as [_ Hh].
  assert (Hhin : h ∈ l ++ [x]) by (rewrite <- Hp; apply list_elem_of_here).
  apply elem_of_app in Hhin as [Hhl|Hhx];
    [|by apply list_elem_of_singleton in Hhx].
  assert (Hxin : x ∈ h :: T).
  { rewrite Hp. apply elem_of_app. right. apply list_elem_of_here. }
  apply elem_of_cons in Hxin as [->|HxT]; [done|].
  pose proof (proj1 (Forall_forall _ _) Hh x HxT) as Hhx.
  unfold Database.newer_first in Hhx. specialize (Hnew h Hhl). lia.
Qed.

(** X13. A movie just created heads the listing.  When create_movie is
    called for a user, with a duration and a user id in the 32-bit range,
    at a clock reading later than the creation time of every stored
    movie, the first row of the listing afterwards, unfiltered or
    filtered by the genre of the request, is the new movie: it has the
    fields of the request, that creation time and the creator's id. *)
Theorem created_movie_listed_first
    (movie : MovieCreate) (current_user : user_row) (now : Z)
    (db : database) (g : option string) :
  - 2 ^ 31 ≤ duration movie < 2 ^ 31 →
  - 2 ^ 31 ≤ user_id current_user < 2 ^ 31 →
  (∀ m, m ∈ movies db → movie_created_at m < now) →
  g = None ∨ g = Some (genre movie) →
  ∃ row,
    fst (get_movies 0 1 g (snd (create_movie movie current_user now db)))
    = Return [row]
    ∧ movie_title row = title movie ∧ movie_genre row = genre movie
    ∧ movie_duration row = duration movie ∧ movie_rating row = rating movie
    ∧ movie_description row = description movie
    ∧ movie_poster_url row = poster_url movie
    ∧ movie_is_new row = is_new movie
    ∧ movie_created_at row = now
    ∧ movie_user_id row = user_id current_user.
Proof.
  intros Hd Hu Hnew Hg.
  rewrite create_movie_runs by done.
  rewrite get_movies_runs by lia. simpl.
  set (row := {| movie_id := movies_id_seq db; movie_title := title movie;
                 movie_genre := genre movie;
                 movie_duration := duration movie;
                 movie_rating := rating movie;
                 movie_description := description movie;
                 movie_poster_url := poster_url movie;
                 movie_is_new := is_new movie;
                 movie_created_at := now; movie_views_count := 0;
                 movie_user_id := user_id current_user |}).
  assert (Hmatch : Database.genre_matches g row).
  { destruct Hg as [->| ->]; simpl; [done|]. by apply bool_decide_pack. }
  rewrite filter_app, (filter_cons_True _ row []) by done.
  rewrite filter_nil.
  destruct (newest_stands_first
              (filter (λ m, Database.genre_matches g m) (movies db))
              (merge_sort Database.newer_first
                 (filter (λ m, Database.genre_matches g m) (movies db)
                  ++ [row]))
              row) as [T ->].
  - apply merge_sort_Permutation.
  - apply (StronglySorted_merge_sort _).
  - intros m Hm. apply list_elem_of_filter in Hm as [_ Hm].
    by apply Hnew.
  - exists row. simpl. repeat split.
Qed.

Lemma created_movie_listed_first_witness :
  ∃ row,
    fst (get_movies 0 1 (Some "Drama")
           (snd (create_movie sample_request alice 1501 sample_db)))
    = Return [row]
    ∧ movie_title row = title sample_request
    ∧ movie_created_at row = 1501
    ∧ movie_user_id row = user_id alice.
Proof.
  destruct (created_movie_listed_first sample_request alice 1501 sample_db
              (Some "Drama"))
    as (row & Hrow & Htitle & _ & _ & _ & _ & _ & _ & Hstamp & Hcreator).
  - simpl. lia.
  - simpl. lia.
  - simpl. intros m. rewrite !elem_of_cons, elem_of_nil.
    intros [->|[->|[->|[]]]]; simpl; lia.
  - by right.
  - exists row.
    split; [exact Hrow|split; [exact Htitle|split; [exact Hstamp|exact Hcreator]]].
Defined.

(** ** Further properties: the connection pool *)

Lemma run_event_one_open (e : Pool.event) (s : Pool.process) :
  one_open_pool s → one_open_pool (Pool.run_event e s).
Proof.
  intros Hinv. destruct e as [url result|]; simpl.
  - unfold Pool.connect.
    destruct (Pool.Database_pool s) as [k|] eqn:Hk; [done|].
    destruct result as [|reason]; simpl; [|done].
    intros i p Hp. simpl in *.
    apply lookup_app_Some in Hp as [Hp|[Hge Hp]].
    + pose proof (lookup_lt_Some _ _ _ Hp) as Hlt.
      pose proof (Hinv i p Hp) as Hi. rewrite Hk in Hi.
      split; [intros Hopen; by apply Hi in Hopen|].
      intros [= Heq]. exfalso. lia.
    + apply list_lookup_singleton_Some in Hp as [Hi <-]. simpl.
      split; [intros _; f_equal; lia|done].
  - unfold Pool.disconnect.
    destruct (Pool.Database_pool s) as [k|] eqn:Hk; [|done].
    intros i p Hp. simpl in *. split; [|done]. intros Hopen.
    destruct (decide (i = k)) as [->|Hne].
    + rewrite list_lookup_alter_eq in Hp.
      destruct (Pool.pools s !! k); simplify_eq/=.
    + rewrite list_lookup_alter_ne in Hp by done.
      apply (Hinv i p Hp) in Hopen. congruence.
Qed.

Lemma run_event_configured (e : Pool.event) (s : Pool.process) :
  Forall configured (Pool.pools s) →
  Forall configured (Pool.pools (Pool.run_event e s)).
Proof.
  intros Hc. destruct e as [url result|]; simpl.
  - unfold Pool.connect.
    destruct (Pool.Database_pool s); [done|].
    destruct result; simpl; [|done].
    apply Forall_app. split; [done|]. by repeat constructor.
  - unfold Pool.disconnect.
    destruct (Pool.Database_pool s) as [k|]; [|done]. simpl.
    apply Forall_forall. intros p Hp.
    apply list_elem_of_lookup in Hp as [i Hp].
    destruct (decide (i = k)) as [->|Hne].
    + rewrite list_lookup_alter_eq in Hp.
      destruct (Pool.pools s !! k) as [q|] eqn:Hq; simplify_eq/=.
      apply (proj1 (Forall_forall _ _) Hc q).
      apply list_elem_of_lookup. eauto.
    + rewrite list_lookup_alter_ne in Hp by done.
      apply (proj1 (Forall_forall _ _) Hc p).
      apply list_elem_of_lookup. eauto.
Qed.

Lemma run_keeps (es : list Pool.event) (s : Pool.process) :
  one_open_pool s → Forall configured (Pool.pools s) →
  one_open_pool (Pool.run es s)
  ∧ Forall configured (Pool.pools (Pool.run es s)).
Proof.
  revert s. induction es as [|e es IH]; intros s Hinv Hc; [done|].
  apply IH; [by apply run_event_one_open|by apply run_event_configured].
Qed.

(** X14. The Database class leaks no pool.  After any sequence of connect
    and disconnect calls from the start of the process, however the
    creations of a pool turn out, the pool the class refers to is open and
    every other pool ever created is closed; every pool was created with
    min_size 10, max_size 20 and command_timeout 60; a connect on a
    connected class creates nothing; and a disconnect leaves the class
    without a pool and every pool closed. *)
Theorem pool_lifecycle (es : list Pool.event) :
  one_open_pool (Pool.run es Pool.initial)
  ∧ Forall configured (Pool.pools (Pool.run es Pool.initial))
  ∧ (∀ url result,
       Pool.Database_pool (Pool.run es Pool.initial) ≠ None →
       Pool.connect url result (Pool.run es Pool.initial)
       = (None, Pool.run es Pool.initial))
  ∧ Pool.Database_pool (Pool.disconnect (Pool.run es Pool.initial)) = None
  ∧ Forall (λ p, Pool.closed p = true)
      (Pool.pools (Pool.disconnect (Pool.run es Pool.initial))).
Proof.
  destruct (run_keeps es Pool.initial) as [Hinv Hc].
  { by intros i p Hp. }
  { constructor. }
  split; [exact Hinv|]. split; [exact Hc|]. split; [|split].
  - intros url result Hsome. unfold Pool.connect.
    by destruct (Pool.Database_pool (Pool.run es Pool.initial)).
  - unfold Pool.disconnect.
    by destruct (Pool.Database_pool (Pool.run es Pool.initial)) eqn:Hk.
  - pose proof (run_event_one_open Pool.Disconnect _ Hinv) as Hafter.
    simpl in Hafter. apply Forall_forall. intros p Hp.
    apply list_elem_of_lookup in Hp as [i Hp].
    destruct (Pool.closed p) eqn:Hclosed; [done|].
    apply (Hafter i p Hp) in Hclosed.
    unfold Pool.disconnect in Hclosed.
    destruct (Pool.Database_pool (Pool.run es Pool.initial)) eqn:Hk;
      simpl in Hclosed; congruence.
Qed.

Example pool_restart :
  Pool.run [Pool.Connect "postgresql://db" Pool.Created;
            Pool.Connect "postgresql://db" Pool.Created;
            Pool.Disconnect; Pool.Disconnect;
            Pool.Connect "postgresql://db" (Pool.Failed "refused");
            Pool.Connect "postgresql://db" Pool.Created]
    Pool.initial
  = {| Pool.pools :=
         [ {| Pool.settings :=
                {| Pool.dsn := "postgresql://db"; Pool.min_size := 10;
                   Pool.max_size := 20; Pool.command_timeout := 60 |};
              Pool.closed := true |};
           {| Pool.settings :=
                {| Pool.dsn := "postgresql://db"; Pool.min_size := 10;
                   Pool.max_size := 20; Pool.command_timeout := 60 |};
              Pool.closed := false |} ];
       Pool.Database_pool := Some 1%nat |}.
Proof. reflexivity. Qed.

Lemma pool_lifecycle_witness :
  Pool.connect "postgresql://other" Pool.Created
    (Pool.run [Pool.Connect "postgresql://db" Pool.Created] Pool.initial)
  = (None, Pool.run [Pool.Connect "postgresql://db" Pool.Created] Pool.initial)
  ∧ Forall (λ p, Pool.closed p = true)
      (Pool.pools
         (Pool.disconnect
            (Pool.run [Pool.Connect "postgresql://db" Pool.Created]
               Pool.initial))).
Proof.
  destruct (pool_lifecycle [Pool.Connect "postgresql://db" Pool.Created])
    as (_ & _ & Hagain & _ & Hclosed).
  split; [|exact Hclosed].
  apply Hagain. simpl. discriminate.
Defined.
